(** * Odom tracking session engine (src/app/page.tsx)

    A shallow embedding of the tracking logic of the [Home] component:
    the haversine distance, the time formatter, the geolocation watch
    callback, the one-second timer, and the start / lap / stop handlers.

    Numbers.  JavaScript numbers holding coordinates and distances are
    modelled as real numbers ([R]): IEEE-754 rounding, NaN and the
    infinities are outside the model.  Numbers holding instants
    (milliseconds of [Date.now()]) and whole seconds are integers ([Z]).

    React.  Every handler runs to completion and the component re-renders
    before the next event is delivered, so a handler is a function from
    the committed state to the next committed state; a functional update
    [setX (prev => f prev)] is [f] applied to the committed value. *)

From Stdlib Require Import Reals Lra ZArith Lia List String Ascii Bool.
From Stdlib Require Import DecimalString DecimalPos DecimalZ.
Import ListNotations.

Local Open Scope R_scope.

(** ** Positions and the great-circle distance *)

Record Position : Type := mkPosition {
  latitude : R;
  longitude : R;
  timestamp : Z
}.

Module JsMath.

(** [Math.atan2 y x] on real arguments (signed zeros do not exist in
    [R]; the quadrant cases are those of ECMAScript). *)
Definition atan2 (y x : R) : R :=
  if Rlt_dec 0 x then atan (y / x)
  else if Rlt_dec x 0 then
    (if Rle_dec 0 y then atan (y / x) + PI else atan (y / x) - PI)
  else if Rlt_dec 0 y then PI / 2
  else if Rlt_dec y 0 then - (PI / 2)
  else 0.

End JsMath.

(** [6371e3], the Earth's radius in meters. *)
Definition earthRadius : R := 6371 * 1000.

Definition calculateDistance (pos1 pos2 : Position) : R :=
  let phi1 := (latitude pos1 * PI) / 180 in
  let phi2 := (latitude pos2 * PI) / 180 in
  let dphi := ((latitude pos2 - latitude pos1) * PI) / 180 in
  let dlambda := ((longitude pos2 - longitude pos1) * PI) / 180 in
  let a :=
    sin (dphi / 2) * sin (dphi / 2) +
    cos phi1 * cos phi2 * sin (dlambda / 2) * sin (dlambda / 2) in
  let c := 2 * JsMath.atan2 (sqrt a) (sqrt (1 - a)) in
  earthRadius * c.

(** The haversine formula as the specification words it: angles are the
    coordinates converted to radians, and the deltas are the signed
    differences of those angles. *)
Module HaversineSpec.

Definition radians (deg : R) : R := deg * PI / 180.

Definition hav_a (phi1 phi2 dphi dlambda : R) : R :=
  (sin (dphi / 2))² + cos phi1 * cos phi2 * (sin (dlambda / 2))².

Definition distance (p1 p2 : Position) : R :=
  let phi1 := radians (latitude p1) in
  let phi2 := radians (latitude p2) in
  let lambda1 := radians (longitude p1) in
  let lambda2 := radians (longitude p2) in
  let a := hav_a phi1 phi2 (phi2 - phi1) (lambda2 - lambda1) in
  let c := 2 * JsMath.atan2 (sqrt a) (sqrt (1 - a)) in
  6371000 * c.

End HaversineSpec.

(** ** Time formatting *)

Module JsString.

(** [n.toString()] of an integral number. *)
Definition toString (n : Z) : string :=
  NilZero.string_of_int (Z.to_int n).

Fixpoint replicate (k : nat) (c : ascii) : string :=
  match k with
  | O => EmptyString
  | S k' => String c (replicate k' c)
  end.

(** [s.padStart(target, c)] for a one-character filler [c]. *)
Definition padStart (target : nat) (c : ascii) (s : string) : string :=
  (replicate (target - String.length s) c ++ s)%string.

End JsString.

Definition pad2 (n : Z) : string :=
  JsString.padStart 2 "0"%char (JsString.toString n).

(** [Math.floor (x / k)] is [Z.div] for a positive [k]; the JavaScript
    remainder [%] takes the sign of the dividend, which is [Z.rem]. *)
Definition formatTime (seconds : Z) : string :=
  let hrs := (seconds / 3600)%Z in
  let mins := (Z.rem seconds 3600 / 60)%Z in
  let secs := Z.rem seconds 60 in
  if (0 <? hrs)%Z
  then (pad2 hrs ++ ":" ++ pad2 mins ++ ":" ++ pad2 secs)%string
  else (pad2 mins ++ ":" ++ pad2 secs)%string.

(** ** Laps and the component state *)

Record Lap : Type := mkLap {
  lapNumber : nat;
  time : string;
  distance : R;
  lapTime : string;
  lapDistance : R
}.

(** The [useState] values and the refs of [Home] that the tracking logic
    reads or writes, followed by the part of the browser the handlers
    talk to: the geolocation watches currently registered and the next
    watch identifier [watchPosition] will hand out.  [timerRef] is [true]
    when an interval is registered.  Theme, debug and status-message
    state is presentation only and is left out. *)
Record State : Type := mkState {
  isTracking : bool;
  hasLocationPermission : bool;
  elapsedTime : Z;
  totalDistance : R;
  laps : list Lap;
  watchIdRef : option nat;
  lastPositionRef : option Position;
  startTimeRef : option Z;
  timerRef : bool;
  lastLapDistanceRef : R;
  lastLapTimeRef : Z;
  activeWatches : list nat;
  nextWatchId : nat
}.

Definition set_isTracking (v : bool) (s : State) : State :=
  mkState v (hasLocationPermission s) (elapsedTime s) (totalDistance s)
    (laps s) (watchIdRef s) (lastPositionRef s) (startTimeRef s)
    (timerRef s) (lastLapDistanceRef s) (lastLapTimeRef s)
    (activeWatches s) (nextWatchId s).

Definition set_hasLocationPermission (v : bool) (s : State) : State :=
  mkState (isTracking s) v (elapsedTime s) (totalDistance s)
    (laps s) (watchIdRef s) (lastPositionRef s) (startTimeRef s)
    (timerRef s) (lastLapDistanceRef s) (lastLapTimeRef s)
    (activeWatches s) (nextWatchId s).

Definition set_elapsedTime (v : Z) (s : State) : State :=
  mkState (isTracking s) (hasLocationPermission s) v (totalDistance s)
    (laps s) (watchIdRef s) (lastPositionRef s) (startTimeRef s)
    (timerRef s) (lastLapDistanceRef s) (lastLapTimeRef s)
    (activeWatches s) (nextWatchId s).

Definition set_totalDistance (v : R) (s : State) : State :=
  mkState (isTracking s) (hasLocationPermission s) (elapsedTime s) v
    (laps s) (watchIdRef s) (lastPositionRef s) (startTimeRef s)
    (timerRef s) (lastLapDistanceRef s) (lastLapTimeRef s)
    (activeWatches s) (nextWatchId s).

Definition set_laps (v : list Lap) (s : State) : State :=
  mkState (isTracking s) (hasLocationPermission s) (elapsedTime s)
    (totalDistance s) v (watchIdRef s) (lastPositionRef s) (startTimeRef s)
    (timerRef s) (lastLapDistanceRef s) (lastLapTimeRef s)
    (activeWatches s) (nextWatchId s).

Definition set_watchIdRef (v : option nat) (s : State) : State :=
  mkState (isTracking s) (hasLocationPermission s) (elapsedTime s)
    (totalDistance s) (laps s) v (lastPositionRef s) (startTimeRef s)
    (timerRef s) (lastLapDistanceRef s) (lastLapTimeRef s)
    (activeWatches s) (nextWatchId s).

Definition set_lastPositionRef (v : option Position) (s : State) : State :=
  mkState (isTracking s) (hasLocationPermission s) (elapsedTime s)
    (totalDistance s) (laps s) (watchIdRef s) v (startTimeRef s)
    (timerRef s) (lastLapDistanceRef s) (lastLapTimeRef s)
    (activeWatches s) (nextWatchId s).

Definition set_startTimeRef (v : option Z) (s : State) : State :=
  mkState (isTracking s) (hasLocationPermission s) (elapsedTime s)
    (totalDistance s) (laps s) (watchIdRef s) (lastPositionRef s) v
    (timerRef s) (lastLapDistanceRef s) (lastLapTimeRef s)
    (activeWatches s) (nextWatchId s).

Definition set_timerRef (v : bool) (s : State) : State :=
  mkState (isTracking s) (hasLocationPermission s) (elapsedTime s)
    (totalDistance s) (laps s) (watchIdRef s) (lastPositionRef s)
    (startTimeRef s) v (lastLapDistanceRef s) (lastLapTimeRef s)
    (activeWatches s) (nextWatchId s).

Definition set_lastLapDistanceRef (v : R) (s : State) : State :=
  mkState (isTracking s) (hasLocationPermission s) (elapsedTime s)
    (totalDistance s) (laps s) (watchIdRef s) (lastPositionRef s)
    (startTimeRef s) (timerRef s) v (lastLapTimeRef s)
    (activeWatches s) (nextWatchId s).

Definition set_lastLapTimeRef (v : Z) (s : State) : State :=
  mkState (isTracking s) (hasLocationPermission s) (elapsedTime s)
    (totalDistance s) (laps s) (watchIdRef s) (lastPositionRef s)
    (startTimeRef s) (timerRef s) (lastLapDistanceRef s) v
    (activeWatches s) (nextWatchId s).

Definition set_activeWatches (v : list nat) (s : State) : State :=
  mkState (isTracking s) (hasLocationPermission s) (elapsedTime s)
    (totalDistance s) (laps s) (watchIdRef s) (lastPositionRef s)
    (startTimeRef s) (timerRef s) (lastLapDistanceRef s) (lastLapTimeRef s)
    v (nextWatchId s).

Definition set_nextWatchId (v : nat) (s : State) : State :=
  mkState (isTracking s) (hasLocationPermission s) (elapsedTime s)
    (totalDistance s) (laps s) (watchIdRef s) (lastPositionRef s)
    (startTimeRef s) (timerRef s) (lastLapDistanceRef s) (lastLapTimeRef s)
    (activeWatches s) v.

(** The state of a freshly mounted component. *)
Definition initialState : State :=
  mkState false false 0%Z 0 [] None None None false 0 0%Z [] O.

(** ** The browser's geolocation service *)

Module Geolocation.

(** [navigator.geolocation.watchPosition]: registers a watch and
    returns its identifier. *)
Definition watchPosition (s : State) : nat * State :=
  let id := nextWatchId s in
  (id, set_nextWatchId (S id) (set_activeWatches (id :: activeWatches s) s)).

(** [navigator.geolocation.clearWatch]. *)
Definition clearWatch (id : nat) (s : State) : State :=
  set_activeWatches (filter (fun w => negb (Nat.eqb w id)) (activeWatches s)) s.

End Geolocation.

(** ** Handlers *)

(** Truthiness of a [number | null] ref: [null] and [0] are falsy. *)
Definition truthy (r : option Z) : bool :=
  match r with
  | Some t => negb (t =? 0)%Z
  | None => false
  end.

(** The guard [isTracking && startTimeRef.current] shared by the timer
    effect, [stopTracking] and (negated) [recordLap]. *)
Definition sessionActive (s : State) : bool :=
  isTracking s && truthy (startTimeRef s).

(** [requestLocationPermission]; [granted] is the outcome of
    [getCurrentPosition] (a missing geolocation service counts as not
    granted).  Only a success changes tracking-relevant state. *)
Definition requestLocationPermission (granted : bool) (s : State) : State :=
  if granted then set_hasLocationPermission true s else s.

(** The success callback handed to [watchPosition]; [now] is the value
    of [Date.now()] when it runs. *)
Definition onPosition (lat lon : R) (now : Z) (s : State) : State :=
  let newPosition := mkPosition lat lon now in
  let s1 :=
    match lastPositionRef s with
    | Some last =>
        let d := calculateDistance last newPosition in
        if Rgt_dec d 5
        then set_totalDistance (totalDistance s + d) s
        else s
    | None => s
    end in
  set_lastPositionRef (Some newPosition) s1.

Definition startTracking (now : Z) (granted : bool) (s : State) : State :=
  if negb (hasLocationPermission s)
  then requestLocationPermission granted s
  else
    let s1 := set_isTracking true s in
    let s2 := set_elapsedTime 0%Z s1 in
    let s3 := set_totalDistance 0 s2 in
    let s4 := set_laps [] s3 in
    let s5 := set_lastPositionRef None s4 in
    let s6 := set_startTimeRef (Some now) s5 in
    let s7 := set_lastLapDistanceRef 0 s6 in
    let s8 := set_lastLapTimeRef 0%Z s7 in
    let (id, s9) := Geolocation.watchPosition s8 in
    set_watchIdRef (Some id) s9.

Definition recordLap (s : State) : State :=
  if negb (isTracking s) || negb (truthy (startTimeRef s)) then s
  else
    let currentTime := elapsedTime s in
    let currentDistance := totalDistance s in
    let lapTime' := (currentTime - lastLapTimeRef s)%Z in
    let lapDistance' := currentDistance - lastLapDistanceRef s in
    let newLap :=
      {| lapNumber := List.length (laps s) + 1;
         time := formatTime currentTime;
         distance := currentDistance;
         lapTime := formatTime lapTime';
         lapDistance := lapDistance' |} in
    let s1 := set_laps (laps s ++ [newLap]) s in
    let s2 := set_lastLapDistanceRef currentDistance s1 in
    set_lastLapTimeRef currentTime s2.

Definition stopTracking (s : State) : State :=
  let s1 := if isTracking s && truthy (startTimeRef s)
            then recordLap s else s in
  let s2 := set_isTracking false s1 in
  let s3 :=
    match watchIdRef s2 with
    | Some id => set_watchIdRef None (Geolocation.clearWatch id s2)
    | None => s2
    end in
  let s4 := set_startTimeRef None s3 in
  set_lastPositionRef None s4.

(** The interval callback: [startTimeRef.current!] is read unchecked, and
    a [null] there would act as [0] in the subtraction. *)
Definition onTimer (now : Z) (s : State) : State :=
  let start := match startTimeRef s with Some t => t | None => 0%Z end in
  set_elapsedTime ((now - start) / 1000)%Z s.

(** The effect with dependency [isTracking]: after a render in which
    [isTracking] changed, the previous interval is cleared and a new one
    is registered exactly when the session guard holds. *)
Definition timerEffect (before after : State) : State :=
  if Bool.eqb (isTracking before) (isTracking after) then after
  else set_timerRef (sessionActive after) after.

(** ** Events *)

Inductive Event : Type :=
| ClickEnableGPS (granted : bool)
| ClickStart (now : Z)
| ClickLap
| ClickStop
| TimerFires (now : Z)
| PositionFix (lat lon : R) (now : Z).

(** Which events can reach a handler: a button must be rendered, an
    interval or a watch must be registered. *)
Definition enabled (s : State) (e : Event) : bool :=
  match e with
  | ClickEnableGPS _ => negb (hasLocationPermission s)
  | ClickStart _ => hasLocationPermission s && negb (isTracking s)
  | ClickLap | ClickStop => hasLocationPermission s && isTracking s
  | TimerFires _ => timerRef s
  | PositionFix _ _ _ =>
      match activeWatches s with [] => false | _ :: _ => true end
  end.

Definition handle (e : Event) (s : State) : State :=
  match e with
  | ClickEnableGPS granted => requestLocationPermission granted s
  | ClickStart now => startTracking now false s
  | ClickLap => recordLap s
  | ClickStop => stopTracking s
  | TimerFires now => onTimer now s
  | PositionFix lat lon now => onPosition lat lon now s
  end.

Definition step (s : State) (e : Event) : State :=
  if enabled s e then timerEffect s (handle e s) else s.

Definition run (s : State) (es : list Event) : State :=
  fold_left step es s.

Definition isStart (e : Event) : bool :=
  match e with ClickStart _ => true | _ => false end.

(** ** Sample sessions and positions used in the scenarios *)

(** A session in which one fix, at (0, 0), has been received. *)
Definition oneFixSession : State :=
  run initialState [ClickEnableGPS true; ClickStart 1000; PositionFix 0 0 1000].

(** The longitude, in degrees, that lies [m] meters east of longitude 0
    on the equator. *)
Definition lonAtMeters (m : R) : R := m * 180 / (PI * earthRadius).

(** ** Predicates used in the statements *)

(** The registrations agree with the refs: an interval exists exactly
    while the session guard holds, the only registered watch is the one
    [watchIdRef] names, no watch outlives tracking, and tracking implies
    that the permission was granted. *)
Definition registrationsConsistent (s : State) : Prop :=
  timerRef s = sessionActive s
  /\ activeWatches s = match watchIdRef s with Some i => [i] | None => [] end
  /\ (isTracking s = false -> watchIdRef s = None)
  /\ (isTracking s = true -> hasLocationPermission s = true).

(** Not tracking, and nothing registered with the browser. *)
Definition quiescent (s : State) : Prop :=
  isTracking s = false /\ timerRef s = false /\ activeWatches s = [].

Definition noStart (es : list Event) : bool :=
  forallb (fun e => negb (isStart e)) es.

(** The lap that [recordLap] builds from the committed state. *)
Definition lapOf (s : State) : Lap :=
  {| lapNumber := List.length (laps s) + 1;
     time := formatTime (elapsedTime s);
     distance := totalDistance s;
     lapTime := formatTime (elapsedTime s - lastLapTimeRef s);
     lapDistance := totalDistance s - lastLapDistanceRef s |}.

(** [lapChain t0 d0 ls ts]: the laps [ls] were cut at the cumulative
    seconds [ts]; each lap shows its cumulative time, and its deltas are
    the differences to the previous boundary, which is [(t0, d0)] for
    the first lap. *)
Fixpoint lapChain (t0 : Z) (d0 : R) (ls : list Lap) (ts : list Z) : Prop :=
  match ls, ts with
  | [], [] => True
  | l :: ls', t :: ts' =>
      time l = formatTime t
      /\ lapTime l = formatTime (t - t0)
      /\ lapDistance l = distance l - d0
      /\ lapChain t (distance l) ls' ts'
  | _, _ => False
  end.

(** The lap cuts of the current session: the elapsed seconds and the
    total at each moment the lap button or the stop button reached its
    handler during an active session.  A start begins a new list. *)
Definition cutStep (s : State) (e : Event) (cuts : list (Z * R))
  : list (Z * R) :=
  if enabled s e then
    match e with
    | ClickStart _ => []
    | ClickLap | ClickStop =>
        if sessionActive s
        then cuts ++ [(elapsedTime s, totalDistance s)]
        else cuts
    | _ => cuts
    end
  else cuts.

Fixpoint lapCuts (s : State) (es : list Event) (cuts : list (Z * R))
  : list (Z * R) :=
  match es with
  | [] => cuts
  | e :: es' => lapCuts (step s e) es' (cutStep s e cuts)
  end.

(** The laps of [s] are the laps cut at [cuts]: the chain of deltas
    runs through the cut seconds, each lap holds the total of its cut,
    and the refs hold the last cut. *)
Definition lapsCutAt (s : State) (cuts : list (Z * R)) : Prop :=
  lapChain 0 0 (laps s) (map fst cuts)
  /\ map distance (laps s) = map snd cuts
  /\ lastLapTimeRef s = last (map fst cuts) 0%Z
  /\ lastLapDistanceRef s = last (map snd cuts) 0.

(** A running session: a first fix, a lap at 65 s, a tick at 90 s. *)
Definition lapSession : list Event :=
  [ClickEnableGPS true; ClickStart 1000; PositionFix 0 0 1500;
   TimerFires 66000; ClickLap; TimerFires 91000].

(** ** Distance formatting *)

Module JsNumber.

Fixpoint takeS (k : nat) (s : string) : string :=
  match k, s with
  | S k', String c s' => String c (takeS k' s')
  | _, _ => EmptyString
  end.

Fixpoint dropS (k : nat) (s : string) : string :=
  match k, s with
  | S k', String _ s' => dropS k' s'
  | _, _ => s
  end.

(** The integer [n] for which [n / 10^f - x] is as close to zero as
    possible, the larger one when there are two. *)
Definition nearest (f : nat) (x : R) : Z := Zfloor (x * 10 ^ f + / 2).

(** [x.toFixed(f)] for [0 <= x < 10^21]: the digits of [nearest f x],
    padded with zeros to [f + 1] places, a point before the last [f]. *)
Definition toFixedAbs (f : nat) (x : R) : string :=
  let m := JsString.toString (nearest f x) in
  match f with
  | O => m
  | S _ =>
      let m' := JsString.padStart (f + 1) "0"%char m in
      let k := String.length m' in
      (takeS (k - f) m' ++ "." ++ dropS (k - f) m')%string
  end.

(** [x.toFixed(f)]: a negative [x] is rendered as a minus sign followed
    by the rendering of [-x]. *)
Definition toFixed (f : nat) (x : R) : string :=
  if Rlt_dec x 0 then ("-" ++ toFixedAbs f (- x))%string
  else toFixedAbs f x.

End JsNumber.

Definition formatDistance (meters : R) : string :=
  if Rge_dec meters 1000
  then (JsNumber.toFixed 2 (meters / 1000) ++ " km")%string
  else (JsNumber.toFixed 0 meters ++ " m")%string.

(** ** Theme preference *)

(** The theme flag of the component, the [data-theme] attribute of the
    document, and the [odom-theme] entry of [localStorage]. *)
Record ThemeState : Type := mkThemeState {
  isDarkMode : bool;
  dataTheme : option string;
  savedTheme : option string
}.

(** A page load: [isDarkMode] starts [false], the document carries no
    attribute, and the mount effect applies a saved dark theme. *)
Definition mountTheme (stored : option string) : ThemeState :=
  match stored with
  | Some t =>
      if String.eqb t "dark"
      then mkThemeState true (Some "dark"%string) stored
      else mkThemeState false None stored
  | None => mkThemeState false None None
  end.

Definition toggleTheme (s : ThemeState) : ThemeState :=
  let newTheme := negb (isDarkMode s) in
  let theme := if newTheme then "dark"%string else "light"%string in
  mkThemeState newTheme (Some theme) (Some theme).

(** ** The lap list as rendered *)

(** [[...laps].reverse()], shown when [laps.length > 0]; each card is
    keyed by its [lapNumber]. *)
Definition displayedLaps (s : State) : list Lap := rev (laps s).

(** ** Notions used in the further properties *)

(** The quantity [a] of [calculateDistance], whose square root and
    whose complement's square root go into [atan2]. *)
Definition haversineTerm (pos1 pos2 : Position) : R :=
  let phi1 := (latitude pos1 * PI) / 180 in
  let phi2 := (latitude pos2 * PI) / 180 in
  let dphi := ((latitude pos2 - latitude pos1) * PI) / 180 in
  let dlambda := ((longitude pos2 - longitude pos1) * PI) / 180 in
  sin (dphi / 2) * sin (dphi / 2) +
  cos phi1 * cos phi2 * sin (dlambda / 2) * sin (dlambda / 2).

Definition digitChar (d : Z) : ascii := ascii_of_nat (48 + Z.to_nat d).

Definition twoDigits (n : Z) : string :=
  String (digitChar (n / 10)) (String (digitChar (n mod 10)) EmptyString).

(** Delivery of a fix to the position callback. *)
Definition deliver (s : State) (p : Position) : State :=
  onPosition (latitude p) (longitude p) (timestamp p) s.

(** The length of the path through [fixes], counting only the legs from
    one fix to the next that are longer than 5 m; [anchor] is the fix
    received before the first one, if any. *)
Fixpoint acceptedDistance (anchor : option Position) (fixes : list Position)
  : R :=
  match fixes with
  | [] => 0
  | p :: rest =>
      match anchor with
      | Some a =>
          if Rgt_dec (calculateDistance a p) 5
          then calculateDistance a p
          else 0
      | None => 0
      end + acceptedDistance (Some p) rest
  end.

(** Every leg from one fix to the next is at most 5 m long. *)
Fixpoint slowDrift (anchor : Position) (fixes : list Position) : Prop :=
  match fixes with
  | [] => True
  | p :: rest => calculateDistance anchor p <= 5 /\ slowDrift p rest
  end.

Definition sumLapDistance (ls : list Lap) : R :=
  fold_right (fun l acc => lapDistance l + acc) 0 ls.

(** The distance bookkeeping of a session: the lap baseline lies between
    0 and the total, no lap has a negative distance, and the lap
    distances add up to the baseline. *)
Definition distanceAccounted (s : State) : Prop :=
  0 <= lastLapDistanceRef s <= totalDistance s
  /\ Forall (fun l => 0 <= lapDistance l) (laps s)
  /\ sumLapDistance (laps s) = lastLapDistanceRef s.

(** The session data two component states show and keep, leaving aside
    the identifiers of the geolocation watches. *)
Definition sameSession (s1 s2 : State) : Prop :=
  isTracking s1 = isTracking s2
  /\ hasLocationPermission s1 = hasLocationPermission s2
  /\ elapsedTime s1 = elapsedTime s2
  /\ totalDistance s1 = totalDistance s2
  /\ laps s1 = laps s2
  /\ lastPositionRef s1 = lastPositionRef s2
  /\ startTimeRef s1 = startTimeRef s2
  /\ timerRef s1 = timerRef s2
  /\ lastLapDistanceRef s1 = lastLapDistanceRef s2
  /\ lastLapTimeRef s1 = lastLapTimeRef s2
  /\ (activeWatches s1 = [] <-> activeWatches s2 = [])
  /\ (watchIdRef s1 = None <-> watchIdRef s2 = None).

(** Fixes along the equator, 3 m apart. *)
Definition driftFixes : list Position :=
  [mkPosition 0 (lonAtMeters 3) 2000; mkPosition 0 (lonAtMeters 6) 3000;
   mkPosition 0 (lonAtMeters 9) 4000; mkPosition 0 (lonAtMeters 12) 5000].

(** * Properties *)

(** ** The distance function *)

(** *** Bounds on pi used for the numeric scenarios *)

Lemma PI_lower : 3141 / 1000 < PI.
Proof.
  pose proof (PI_2_3_7_ineq 3) as [H _].
  unfold sum_f_R0, tg_alt, PI_2_3_7_tg, Ratan_seq in H; simpl in H.
  lra.
Qed.

Lemma PI_upper : PI < 3142 / 1000.
Proof.
  pose proof (PI_2_3_7_ineq 3) as [_ H].
  unfold sum_f_R0, tg_alt, PI_2_3_7_tg, Ratan_seq in H; simpl in H.
  lra.
Qed.

Lemma atan2_sin_cos (x : R) :
  - (PI / 2) < x < PI / 2 -> JsMath.atan2 (sin x) (cos x) = x.
Proof.
  intros Hx. unfold JsMath.atan2.
  assert (Hc : 0 < cos x) by (apply cos_gt_0; lra).
  destruct (Rlt_dec 0 (cos x)) as [_ | Hn]; [ | contradiction ].
  change (sin x / cos x) with (tan x).
  now apply atan_tan.
Qed.

Lemma sqrt_sin_sq (x : R) : 0 <= x <= PI -> sqrt (sin x * sin x) = sin x.
Proof.
  intros Hx. apply sqrt_square. now apply sin_ge_0.
Qed.

Lemma sqrt_cos_sq (x : R) :
  - (PI / 2) < x < PI / 2 -> sqrt (1 - sin x * sin x) = cos x.
Proof.
  intros Hx.
  replace (1 - sin x * sin x) with (cos x * cos x).
  - apply sqrt_square. left. apply cos_gt_0; lra.
  - pose proof (sin2_cos2 x) as H. unfold Rsqr in H. lra.
Qed.

(** Along the equator the haversine distance is the radius times the
    longitude difference in radians. *)
Lemma distance_along_equator (lon1 lon2 : R) (t1 t2 : Z) :
  0 <= lon2 - lon1 < 180 ->
  calculateDistance (mkPosition 0 lon1 t1) (mkPosition 0 lon2 t2)
  = earthRadius * ((lon2 - lon1) * PI / 180).
Proof.
  intros Hlon. unfold calculateDistance; cbn [latitude longitude].
  set (x := (lon2 - lon1) * PI / 180 / 2).
  pose proof PI_RGT_0 as Hpi.
  assert (Hx : 0 <= x < PI / 2).
  { unfold x. split.
    - apply Rmult_le_pos; [ | lra ]. apply Rmult_le_pos; [ | lra ].
      apply Rmult_le_pos; lra.
    - assert ((lon2 - lon1) * PI < 180 * PI) by (apply Rmult_lt_compat_r; lra).
      lra. }
  replace ((0 - 0) * PI / 180 / 2) with 0 by lra.
  replace (0 * PI / 180) with 0 by lra.
  rewrite sin_0, cos_0.
  replace (0 * 0 + 1 * 1 * sin x * sin x) with (sin x * sin x) by ring.
  rewrite sqrt_sin_sq by lra.
  rewrite sqrt_cos_sq by lra.
  rewrite atan2_sin_cos by lra.
  unfold x. field.
Qed.

Lemma distance_same_coordinates (p : Position) (t : Z) :
  calculateDistance p (mkPosition (latitude p) (longitude p) t) = 0.
Proof.
  unfold calculateDistance; cbn [latitude longitude].
  replace ((latitude p - latitude p) * PI / 180 / 2) with 0 by lra.
  replace ((longitude p - longitude p) * PI / 180 / 2) with 0 by lra.
  rewrite sin_0.
  replace (0 * 0 + cos (latitude p * PI / 180) * cos (latitude p * PI / 180) * 0 * 0)
    with 0 by ring.
  rewrite sqrt_0, Rminus_0_r, sqrt_1.
  unfold JsMath.atan2.
  destruct (Rlt_dec 0 1) as [_ | Hn]; [ | exfalso; lra ].
  replace (0 / 1) with 0 by lra. rewrite atan_0. ring.
Qed.

(** In exact real arithmetic [calculateDistance] is the haversine
    great-circle formula on a sphere of radius 6 371 000 m: it agrees,
    for every pair of positions, with the formula written with the
    coordinates converted to radians and the signed differences of the
    angles, and the distance from (lat 0, lon 0) to (lat 0, lon 0.0001)
    lies between 11.11 m and 11.13 m.  The program evaluates the same
    expression in IEEE doubles, with the engine's approximations of
    sine, cosine and arc tangent; what rounding does to it (the two
    ways of forming the deltas differ in the last bits, and close to
    antipodal positions [a] can round above 1, which makes the result
    NaN) is outside this model. *)
Lemma haversine_in_exact_arithmetic :
  (forall p1 p2 : Position,
      calculateDistance p1 p2 = HaversineSpec.distance p1 p2)
  /\ (forall t1 t2 : Z,
         1111 / 100 <
         calculateDistance (mkPosition 0 0 t1) (mkPosition 0 (1 / 10000) t2)
         < 1113 / 100).
Proof.
  split.
  - intros p1 p2.
    unfold calculateDistance, HaversineSpec.distance, HaversineSpec.hav_a,
      HaversineSpec.radians, earthRadius, Rsqr.
    replace (latitude p2 * PI / 180 - latitude p1 * PI / 180)
      with ((latitude p2 - latitude p1) * PI / 180) by lra.
    replace (longitude p2 * PI / 180 - longitude p1 * PI / 180)
      with ((longitude p2 - longitude p1) * PI / 180) by lra.
    cbv zeta.
    replace (6371 * 1000) with 6371000 by lra.
    rewrite !Rmult_assoc. reflexivity.
  - intros t1 t2.
    rewrite distance_along_equator by lra.
    unfold earthRadius.
    pose proof PI_lower. pose proof PI_upper. lra.
Qed.

(** ** The position callback *)

Lemma onPosition_anchor (lat lon : R) (now : Z) (s : State) :
  lastPositionRef (onPosition lat lon now s) = Some (mkPosition lat lon now).
Proof. reflexivity. Qed.

Lemma onPosition_first (lat lon : R) (now : Z) (s : State) :
  lastPositionRef s = None ->
  totalDistance (onPosition lat lon now s) = totalDistance s.
Proof.
  intros Hnone. unfold onPosition. rewrite Hnone. reflexivity.
Qed.

Lemma onPosition_rejected (lat lon : R) (now : Z) (s : State) (p : Position) :
  lastPositionRef s = Some p ->
  calculateDistance p (mkPosition lat lon now) <= 5 ->
  totalDistance (onPosition lat lon now s) = totalDistance s.
Proof.
  intros Hp Hd. unfold onPosition. rewrite Hp.
  destruct (Rgt_dec _ 5) as [Hgt | _]; [ exfalso; lra | reflexivity ].
Qed.

Lemma onPosition_accepted (lat lon : R) (now : Z) (s : State) (p : Position) :
  lastPositionRef s = Some p ->
  calculateDistance p (mkPosition lat lon now) > 5 ->
  totalDistance (onPosition lat lon now s)
  = totalDistance s + calculateDistance p (mkPosition lat lon now).
Proof.
  intros Hp Hd. unfold onPosition. rewrite Hp.
  destruct (Rgt_dec _ 5) as [_ | Hn]; [ reflexivity | contradiction ].
Qed.

Lemma onPosition_total_le (lat lon : R) (now : Z) (s : State) :
  totalDistance s <= totalDistance (onPosition lat lon now s).
Proof.
  unfold onPosition. destruct (lastPositionRef s) as [p | ]; cbn.
  - destruct (Rgt_dec _ 5) as [Hgt | _]; cbn; lra.
  - lra.
Qed.

Lemma onPosition_isTracking (lat lon : R) (now : Z) (s : State) :
  isTracking (onPosition lat lon now s) = isTracking s.
Proof.
  unfold onPosition. destruct (lastPositionRef s) as [p | ]; cbn;
    [ destruct (Rgt_dec _ 5) | ]; reflexivity.
Qed.

Lemma timerEffect_same (before after : State) :
  isTracking before = isTracking after -> timerEffect before after = after.
Proof.
  intros H. unfold timerEffect. rewrite H.
  now destruct (isTracking after).
Qed.

Lemma step_PositionFix (lat lon : R) (now : Z) (s : State) :
  enabled s (PositionFix lat lon now) = true ->
  step s (PositionFix lat lon now) = onPosition lat lon now s.
Proof.
  intros He. unfold step. rewrite He. cbn [handle].
  apply timerEffect_same. symmetry. apply onPosition_isTracking.
Qed.

Lemma oneFixSession_anchor :
  lastPositionRef oneFixSession = Some (mkPosition 0 0 1000).
Proof. reflexivity. Qed.

Lemma scenarioB_distance (t1 t2 : Z) :
  calculateDistance (mkPosition 0 0 t1) (mkPosition 0 (3 / 100000) t2) <= 5.
Proof.
  rewrite distance_along_equator by lra.
  unfold earthRadius. pose proof PI_upper. lra.
Qed.

(** C1 (as stated, refuted).  In the session that has received the fix
    (0, 0), the fix (0, 0.00003) is about 3.3 m away, hence rejected, and
    yet it becomes the anchor: it is not true that the total and the
    anchor are both unchanged. *)
Lemma anchor_retention_fails :
  calculateDistance (mkPosition 0 0 1000) (mkPosition 0 (3 / 100000) 2000) <= 5
  /\ lastPositionRef oneFixSession = Some (mkPosition 0 0 1000)
  /\ ~ (totalDistance (step oneFixSession (PositionFix 0 (3 / 100000) 2000))
        = totalDistance oneFixSession
        /\ lastPositionRef (step oneFixSession (PositionFix 0 (3 / 100000) 2000))
           = lastPositionRef oneFixSession).
Proof.
  split; [ apply scenarioB_distance | ].
  split; [ reflexivity | ].
  intros [_ Hanchor].
  rewrite step_PositionFix, onPosition_anchor in Hanchor by reflexivity.
  rewrite oneFixSession_anchor in Hanchor.
  inversion Hanchor.
Qed.

(** C1 (amended).  When the new sample is at most 5 m from the anchor
    [lastPositionRef], the total distance is unchanged and the sample
    replaces the anchor: the callback stores every sample as the next
    comparison point. *)
Theorem rejected_sample_keeps_total_and_becomes_anchor
    (s : State) (p : Position) (lat lon : R) (now : Z) :
  lastPositionRef s = Some p ->
  calculateDistance p (mkPosition lat lon now) <= 5 ->
  totalDistance (onPosition lat lon now s) = totalDistance s
  /\ lastPositionRef (onPosition lat lon now s) = Some (mkPosition lat lon now).
Proof.
  intros Hp Hd. split.
  - now apply onPosition_rejected with (p := p).
  - apply onPosition_anchor.
Qed.

Lemma rejected_sample_witness :
  totalDistance (onPosition 0 (3 / 100000) 2000 oneFixSession)
  = totalDistance oneFixSession
  /\ lastPositionRef (onPosition 0 (3 / 100000) 2000 oneFixSession)
     = Some (mkPosition 0 (3 / 100000) 2000).
Proof.
  apply (rejected_sample_keeps_total_and_becomes_anchor
           oneFixSession (mkPosition 0 0 1000) 0 (3 / 100000) 2000).
  - reflexivity.
  - apply scenarioB_distance.
Defined.

(** C2.  With an anchor in place and d the haversine distance from the
    anchor to the new sample: if d <= 5 (5 itself included) the total is
    unchanged, so it does not increase; if d > 5 the new total is the old
    one plus d. *)
Theorem noise_floor (s : State) (p : Position) (lat lon : R) (now : Z) :
  lastPositionRef s = Some p ->
  let d := calculateDistance p (mkPosition lat lon now) in
  (d <= 5 -> totalDistance (onPosition lat lon now s) = totalDistance s)
  /\ (d > 5 -> totalDistance (onPosition lat lon now s) = totalDistance s + d).
Proof.
  intros Hp d. split; intros Hd.
  - now apply onPosition_rejected with (p := p).
  - now apply onPosition_accepted.
Qed.

Lemma lonAtMeters_distance (m : R) (t1 t2 : Z) :
  0 <= m <= 1000 ->
  calculateDistance (mkPosition 0 0 t1) (mkPosition 0 (lonAtMeters m) t2) = m.
Proof.
  intros Hm. pose proof PI_lower as Hpi.
  assert (Hden : 0 < PI * earthRadius).
  { unfold earthRadius. apply Rmult_lt_0_compat; lra. }
  assert (Hlon : 0 <= lonAtMeters m - 0 < 180).
  { unfold lonAtMeters. rewrite Rminus_0_r. split.
    - apply Rmult_le_pos; [ lra | left; now apply Rinv_0_lt_compat ].
    - apply Rmult_lt_reg_r with (r := PI * earthRadius); [ assumption | ].
      unfold Rdiv. rewrite Rmult_assoc, Rinv_l by lra.
      assert (1000 < PI * earthRadius).
      { unfold earthRadius. nra. }
      nra. }
  rewrite distance_along_equator by assumption.
  unfold lonAtMeters, earthRadius. field. lra.
Qed.

Lemma noise_floor_witness :
  calculateDistance (mkPosition 0 0 1000) (mkPosition 0 (lonAtMeters 5) 2000)
  = 5
  /\ totalDistance (onPosition 0 (lonAtMeters 5) 2000 oneFixSession)
     = totalDistance oneFixSession.
Proof.
  assert (Hd : calculateDistance (mkPosition 0 0 1000)
                 (mkPosition 0 (lonAtMeters 5) 2000) = 5)
    by (apply lonAtMeters_distance; lra).
  split; [ exact Hd | ].
  apply (proj1 (noise_floor oneFixSession (mkPosition 0 0 1000)
                  0 (lonAtMeters 5) 2000 eq_refl)).
  rewrite Hd. apply Rle_refl.
Defined.

(** Two fixes 5.01 m apart: the total grows by exactly 5.01. *)
Lemma noise_floor_just_above :
  totalDistance (onPosition 0 (lonAtMeters (501 / 100)) 2000 oneFixSession)
  = totalDistance oneFixSession + 501 / 100.
Proof.
  assert (Hd : calculateDistance (mkPosition 0 0 1000)
                 (mkPosition 0 (lonAtMeters (501 / 100)) 2000) = 501 / 100)
    by (apply lonAtMeters_distance; lra).
  rewrite (onPosition_accepted _ _ _ _ (mkPosition 0 0 1000)).
  - now rewrite Hd.
  - reflexivity.
  - rewrite Hd. lra.
Qed.

(** ** Steps of the event loop *)

Ltac timer_effect_field :=
  unfold timerEffect;
  match goal with
  | |- context [Bool.eqb ?a ?b] => destruct (Bool.eqb a b)
  end; reflexivity.

Lemma timerEffect_totalDistance (a b : State) :
  totalDistance (timerEffect a b) = totalDistance b.
Proof. timer_effect_field. Qed.

Lemma timerEffect_lastPositionRef (a b : State) :
  lastPositionRef (timerEffect a b) = lastPositionRef b.
Proof. timer_effect_field. Qed.

Lemma timerEffect_elapsedTime (a b : State) :
  elapsedTime (timerEffect a b) = elapsedTime b.
Proof. timer_effect_field. Qed.

Lemma timerEffect_laps (a b : State) : laps (timerEffect a b) = laps b.
Proof. timer_effect_field. Qed.

Lemma timerEffect_isTracking (a b : State) :
  isTracking (timerEffect a b) = isTracking b.
Proof. timer_effect_field. Qed.

Lemma timerEffect_lastLapTimeRef (a b : State) :
  lastLapTimeRef (timerEffect a b) = lastLapTimeRef b.
Proof. timer_effect_field. Qed.

Lemma timerEffect_lastLapDistanceRef (a b : State) :
  lastLapDistanceRef (timerEffect a b) = lastLapDistanceRef b.
Proof. timer_effect_field. Qed.

Lemma recordLap_inactive (s : State) :
  sessionActive s = false -> recordLap s = s.
Proof.
  unfold sessionActive, recordLap. intros H.
  destruct (isTracking s), (truthy (startTimeRef s));
    try discriminate; reflexivity.
Qed.

Lemma recordLap_active (s : State) :
  sessionActive s = true ->
  recordLap s
  = set_lastLapTimeRef (elapsedTime s)
      (set_lastLapDistanceRef (totalDistance s)
         (set_laps (laps s ++ [lapOf s]) s)).
Proof.
  unfold sessionActive, recordLap. intros H.
  destruct (isTracking s), (truthy (startTimeRef s));
    try discriminate; reflexivity.
Qed.

Lemma recordLap_totalDistance (s : State) :
  totalDistance (recordLap s) = totalDistance s.
Proof.
  unfold recordLap.
  now destruct (negb (isTracking s) || negb (truthy (startTimeRef s))).
Qed.

Lemma recordLap_isTracking (s : State) :
  isTracking (recordLap s) = isTracking s.
Proof.
  unfold recordLap.
  now destruct (negb (isTracking s) || negb (truthy (startTimeRef s))).
Qed.

Lemma recordLap_elapsedTime (s : State) :
  elapsedTime (recordLap s) = elapsedTime s.
Proof.
  unfold recordLap.
  now destruct (negb (isTracking s) || negb (truthy (startTimeRef s))).
Qed.

Ltac stop_cases s :=
  unfold stopTracking, recordLap, sessionActive;
  destruct s as [trk perm el tot ls wid lp st tm lld llt aw nw]; cbn;
  destruct trk, (truthy st), wid; cbn.

Lemma stopTracking_totalDistance (s : State) :
  totalDistance (stopTracking s) = totalDistance s.
Proof. stop_cases s; reflexivity. Qed.

Lemma stopTracking_elapsedTime (s : State) :
  elapsedTime (stopTracking s) = elapsedTime s.
Proof. stop_cases s; reflexivity. Qed.

Lemma stopTracking_cleared (s : State) :
  isTracking (stopTracking s) = false
  /\ startTimeRef (stopTracking s) = None
  /\ lastPositionRef (stopTracking s) = None
  /\ watchIdRef (stopTracking s) = None.
Proof. stop_cases s; repeat split. Qed.

Lemma stopTracking_laps (s : State) :
  laps (stopTracking s) = laps (recordLap s).
Proof. stop_cases s; reflexivity. Qed.

(** Every step other than a start leaves the total where it was, or
    moves it up. *)
Lemma step_total_le (s : State) (e : Event) :
  isStart e = false -> totalDistance s <= totalDistance (step s e).
Proof.
  intros Hns. unfold step. destruct (enabled s e); [ | lra ].
  rewrite timerEffect_totalDistance.
  destruct e as [g | t | | | t | lat lon t]; cbn [handle]; try discriminate.
  - unfold requestLocationPermission. destruct g; cbn; lra.
  - rewrite recordLap_totalDistance. lra.
  - rewrite stopTracking_totalDistance. lra.
  - cbn. lra.
  - apply onPosition_total_le.
Qed.

Lemma run_total_le (es : list Event) :
  forall s, noStart es = true -> totalDistance s <= totalDistance (run s es).
Proof.
  induction es as [ | e es IH]; intros s Hns; cbn.
  - lra.
  - cbn in Hns. apply andb_prop in Hns as [He Hes].
    apply Rle_trans with (totalDistance (step s e)).
    + apply step_total_le. now destruct (isStart e).
    + now apply IH.
Qed.

(** C4.  The running total never goes down during a session: each call
    of the position callback leaves a total at least as large as before,
    and so does every sequence of session events (fixes, timer ticks,
    laps, the final stop) that contains no new start. *)
Theorem totalDistance_monotone :
  (forall (s : State) (lat lon : R) (now : Z),
      totalDistance s <= totalDistance (onPosition lat lon now s))
  /\ (forall (s : State) (es : list Event),
         noStart es = true -> totalDistance s <= totalDistance (run s es)).
Proof.
  split.
  - intros s lat lon now. apply onPosition_total_le.
  - intros s es. apply run_total_le.
Qed.

Lemma totalDistance_monotone_witness :
  totalDistance oneFixSession
  <= totalDistance
       (run oneFixSession
          [PositionFix 0 (1 / 10000) 2000; TimerFires 2000; ClickLap;
           PositionFix 0 (3 / 100000) 3000; ClickStop]).
Proof.
  apply (proj2 totalDistance_monotone). reflexivity.
Defined.

(** C10.  While no anchor is stored, a fix leaves the total unchanged
    and becomes the anchor, whatever its coordinates; [startTracking]
    clears the anchor and the total, so this is the case of the first
    fix of every session. *)
Theorem first_sample_is_baseline :
  (forall (s : State) (lat lon : R) (now : Z),
      lastPositionRef s = None ->
      totalDistance (onPosition lat lon now s) = totalDistance s
      /\ lastPositionRef (onPosition lat lon now s)
         = Some (mkPosition lat lon now))
  /\ (forall (s : State) (t0 : Z) (granted : bool) (lat lon : R) (now : Z),
         hasLocationPermission s = true ->
         let s0 := startTracking t0 granted s in
         lastPositionRef s0 = None
         /\ totalDistance s0 = 0
         /\ totalDistance (onPosition lat lon now s0) = 0
         /\ lastPositionRef (onPosition lat lon now s0)
            = Some (mkPosition lat lon now)).
Proof.
  split.
  - intros s lat lon now Hnone. split.
    + now apply onPosition_first.
    + apply onPosition_anchor.
  - intros s t0 granted lat lon now Hperm.
    unfold startTracking. rewrite Hperm. cbn. repeat split.
Qed.

Lemma first_sample_is_baseline_witness :
  let s := run initialState [ClickEnableGPS true; ClickStart 1000] in
  totalDistance (onPosition 48 (-200) 1500 s) = totalDistance s
  /\ lastPositionRef (onPosition 48 (-200) 1500 s)
     = Some (mkPosition 48 (-200) 1500).
Proof.
  apply (proj1 first_sample_is_baseline). reflexivity.
Defined.

(** ** Invariants of the event loop *)

Lemma initial_consistent : registrationsConsistent initialState.
Proof. repeat split; discriminate. Qed.

Lemma step_consistent (s : State) (e : Event) :
  registrationsConsistent s -> registrationsConsistent (step s e).
Proof.
  intros Hinv. unfold step. destruct (enabled s e) eqn:Hen; [ | exact Hinv ].
  destruct Hinv as (Htimer & Hwatches & Hidle & Hperm).
  destruct e as [g | t | | | t | lat lon t]; cbn [handle enabled] in *.
  - (* Enable GPS *)
    unfold registrationsConsistent, sessionActive, timerEffect,
      requestLocationPermission in *.
    destruct g; cbn; rewrite ?Bool.eqb_reflx; cbn; auto.
  - (* Start *)
    apply andb_prop in Hen as [Hp Htrk].
    apply negb_true_iff in Htrk.
    specialize (Hidle Htrk).
    unfold registrationsConsistent, sessionActive, timerEffect,
      startTracking in *.
    rewrite Hp, Htrk. cbn. rewrite Hwatches, Hidle. cbn.
    repeat split; auto; discriminate.
  - (* Lap *)
    unfold registrationsConsistent in *.
    rewrite timerEffect_same by (symmetry; apply recordLap_isTracking).
    destruct (sessionActive s) eqn:Hact.
    + rewrite recordLap_active by exact Hact.
      unfold sessionActive in *. cbn. rewrite Hact. auto.
    + rewrite recordLap_inactive by exact Hact. rewrite Hact. auto.
  - (* Stop *)
    apply andb_prop in Hen as [Hp Htrk].
    unfold registrationsConsistent, sessionActive, timerEffect in *.
    revert Htimer Hwatches Hidle Hperm Hp Htrk. stop_cases s; intros; subst;
      try discriminate; cbn; rewrite ?Nat.eqb_refl; cbn;
      repeat split; auto; discriminate.
  - (* Timer *)
    unfold registrationsConsistent, sessionActive, timerEffect, onTimer in *.
    cbn. rewrite Bool.eqb_reflx. cbn. auto.
  - (* Position fix *)
    unfold registrationsConsistent in *.
    rewrite timerEffect_same by (symmetry; apply onPosition_isTracking).
    unfold sessionActive, onPosition in *.
    destruct (lastPositionRef s); [ destruct (Rgt_dec _ 5) | ]; cbn; auto.
Qed.

Lemma run_consistent (es : list Event) :
  forall s, registrationsConsistent s -> registrationsConsistent (run s es).
Proof.
  induction es as [ | e es IH]; intros s Hinv; cbn.
  - exact Hinv.
  - apply IH. now apply step_consistent.
Qed.

Lemma reachable_consistent (es : list Event) :
  registrationsConsistent (run initialState es).
Proof. apply run_consistent, initial_consistent. Qed.

(** A quiescent state only reacts to a start (and to the permission
    button, which touches none of the session data). *)
Lemma step_quiescent (s : State) (e : Event) :
  quiescent s -> isStart e = false ->
  quiescent (step s e)
  /\ elapsedTime (step s e) = elapsedTime s
  /\ totalDistance (step s e) = totalDistance s
  /\ lastPositionRef (step s e) = lastPositionRef s
  /\ laps (step s e) = laps s.
Proof.
  intros (Htrk & Htimer & Hwatches) Hns. unfold step.
  destruct e as [g | t | | | t | lat lon t]; cbn [enabled handle];
    try discriminate;
    rewrite ?Htrk, ?Htimer, ?Hwatches, ?andb_false_r;
    try (repeat split; assumption).
  destruct (negb (hasLocationPermission s)); [ | repeat split; assumption ].
  unfold quiescent, timerEffect, requestLocationPermission.
  destruct g; cbn; rewrite ?Bool.eqb_reflx; cbn; repeat split; assumption.
Qed.

Lemma run_cons (s : State) (e : Event) (es : list Event) :
  run s (e :: es) = run (step s e) es.
Proof. reflexivity. Qed.

Lemma run_quiescent (es : list Event) :
  forall s, quiescent s -> noStart es = true ->
  elapsedTime (run s es) = elapsedTime s
  /\ totalDistance (run s es) = totalDistance s
  /\ lastPositionRef (run s es) = lastPositionRef s
  /\ laps (run s es) = laps s.
Proof.
  induction es as [ | e es IH]; intros s Hq Hns.
  - repeat split.
  - rewrite run_cons. cbn in Hns. apply andb_prop in Hns as [He Hes].
    apply negb_true_iff in He.
    destruct (step_quiescent s e Hq He) as (Hq' & H1 & H2 & H3 & H4).
    destruct (IH (step s e) Hq' Hes) as (I1 & I2 & I3 & I4).
    rewrite I1, I2, I3, I4. auto.
Qed.

(** After the stop button (whether or not it was rendered), a state
    with consistent registrations is quiescent. *)
Lemma stop_quiescent (s : State) :
  registrationsConsistent s -> quiescent (step s ClickStop).
Proof.
  intros (Htimer & Hwatches & Hidle & Hperm). unfold step.
  cbn [enabled handle].
  destruct (isTracking s) eqn:Htrk.
  - rewrite (Hperm eq_refl). cbn [andb].
    unfold quiescent, timerEffect, sessionActive in *.
    revert Htimer Hwatches Hidle Hperm Htrk. stop_cases s; intros; subst;
      try discriminate; cbn; rewrite ?Nat.eqb_refl; cbn; repeat split.
  - rewrite andb_false_r. unfold quiescent, sessionActive in *.
    rewrite (Hidle eq_refl) in Hwatches. rewrite Htrk in Htimer.
    cbn in Htimer. auto.
Qed.

(** ** Laps *)

Lemma stopTracking_lastLapTimeRef (s : State) :
  lastLapTimeRef (stopTracking s) = lastLapTimeRef (recordLap s).
Proof. stop_cases s; reflexivity. Qed.

Lemma stopTracking_lastLapDistanceRef (s : State) :
  lastLapDistanceRef (stopTracking s) = lastLapDistanceRef (recordLap s).
Proof. stop_cases s; reflexivity. Qed.

Lemma last_cons_default {A : Type} (l : list A) :
  forall x d : A, last (x :: l) d = last l x.
Proof.
  induction l as [ | y l IH]; intros x d.
  - reflexivity.
  - change (last (x :: y :: l) d) with (last (y :: l) d).
    rewrite (IH y d), (IH y x). reflexivity.
Qed.

Lemma lapChain_snoc (ls : list Lap) :
  forall (ts : list Z) (t0 : Z) (d0 : R) (l : Lap) (t : Z),
    lapChain t0 d0 ls ts ->
    time l = formatTime t ->
    lapTime l = formatTime (t - last ts t0) ->
    lapDistance l = distance l - last (map distance ls) d0 ->
    lapChain t0 d0 (ls ++ [l]) (ts ++ [t]).
Proof.
  induction ls as [ | l0 ls IH]; intros ts t0 d0 l t Hchain Ht Hlt Hld.
  - destruct ts as [ | t1 ts]; [ | contradiction ].
    cbn in *. auto.
  - destruct ts as [ | t1 ts]; [ contradiction | ].
    destruct Hchain as (H1 & H2 & H3 & Hrest).
    cbn [app lapChain]. repeat split; try assumption.
    apply IH; try assumption.
    + now rewrite <- (last_cons_default ts t1 t0).
    + cbn [map] in Hld. now rewrite <- (last_cons_default _ (distance l0) d0).
Qed.

Lemma lapsCutAt_ext (s s' : State) (cuts : list (Z * R)) :
  laps s' = laps s ->
  lastLapTimeRef s' = lastLapTimeRef s ->
  lastLapDistanceRef s' = lastLapDistanceRef s ->
  lapsCutAt s cuts -> lapsCutAt s' cuts.
Proof.
  intros Hl Ht Hd (Hc & Hdist & H1 & H2). unfold lapsCutAt.
  rewrite Hl, Ht, Hd. auto.
Qed.

Lemma recordLap_lapsCutAt (s : State) (cuts : list (Z * R)) :
  sessionActive s = true ->
  lapsCutAt s cuts ->
  lapsCutAt (recordLap s) (cuts ++ [(elapsedTime s, totalDistance s)]).
Proof.
  intros Hact (Hc & Hdist & H1 & H2).
  rewrite recordLap_active by exact Hact.
  unfold lapsCutAt. cbn. rewrite !map_app. cbn. rewrite !last_last.
  repeat split.
  - apply lapChain_snoc; cbn;
      [ assumption | reflexivity | now rewrite H1
      | now rewrite Hdist, H2 ].
  - now rewrite Hdist.
Qed.

Lemma step_lapsCutAt (s : State) (e : Event) (cuts : list (Z * R)) :
  lapsCutAt s cuts -> lapsCutAt (step s e) (cutStep s e cuts).
Proof.
  intros Hinv. unfold step, cutStep.
  destruct (enabled s e) eqn:Hen; [ | exact Hinv ].
  apply lapsCutAt_ext with (s := handle e s);
    [ apply timerEffect_laps | apply timerEffect_lastLapTimeRef
    | apply timerEffect_lastLapDistanceRef | ].
  destruct e as [g | t | | | t | lat lon t]; cbn [handle enabled] in *.
  - unfold requestLocationPermission. destruct g; [ | exact Hinv ].
    now apply lapsCutAt_ext with (s := s).
  - apply andb_prop in Hen as [Hp _].
    unfold startTracking. rewrite Hp. cbn.
    unfold lapsCutAt. cbn. auto.
  - destruct (sessionActive s) eqn:Hact.
    + now apply recordLap_lapsCutAt.
    + now rewrite recordLap_inactive.
  - destruct (sessionActive s) eqn:Hact.
    + apply lapsCutAt_ext with (s := recordLap s).
      * apply stopTracking_laps.
      * apply stopTracking_lastLapTimeRef.
      * apply stopTracking_lastLapDistanceRef.
      * now apply recordLap_lapsCutAt.
    + apply lapsCutAt_ext with (s := recordLap s).
      * apply stopTracking_laps.
      * apply stopTracking_lastLapTimeRef.
      * apply stopTracking_lastLapDistanceRef.
      * now rewrite recordLap_inactive.
  - now apply lapsCutAt_ext with (s := s).
  - apply lapsCutAt_ext with (s := s); try assumption;
      unfold onPosition;
      (destruct (lastPositionRef s); [ destruct (Rgt_dec _ 5) | ]);
      reflexivity.
Qed.

Lemma run_lapsCutAt (es : list Event) :
  forall (s : State) (cuts : list (Z * R)),
    lapsCutAt s cuts -> lapsCutAt (run s es) (lapCuts s es cuts).
Proof.
  induction es as [ | e es IH]; intros s cuts Hinv.
  - exact Hinv.
  - rewrite run_cons. cbn [lapCuts]. apply IH. now apply step_lapsCutAt.
Qed.

(** C5.  In every state the component can reach, with [cuts] the
    moments of the current session at which a lap was cut (by the lap
    button or by the stop), given as the elapsed seconds and the total
    at that moment: there is one lap per cut, in order; the lap of a cut
    at [t] seconds shows the cumulative time [formatTime t] and the lap
    time [formatTime (t - t')], with [t'] the seconds of the previous
    cut and 0 for the first lap; its cumulative distance is the total at
    the cut and its lap distance is that minus the cumulative distance
    of the previous lap, 0 for the first lap; and the refs hold the last
    cut. *)
Theorem lap_deltas_are_differences (es : list Event) :
  let s := run initialState es in
  let cuts := lapCuts initialState es [] in
  lapChain 0 0 (laps s) (map fst cuts)
  /\ map distance (laps s) = map snd cuts
  /\ lastLapTimeRef s = last (map fst cuts) 0%Z
  /\ lastLapDistanceRef s = last (map snd cuts) 0.
Proof.
  intros s cuts.
  change (lapsCutAt (run initialState es) (lapCuts initialState es [])).
  apply run_lapsCutAt. unfold lapsCutAt. cbn. auto.
Qed.

(** The laps of [lapSession] followed by a stop: cuts at 65 s and 90 s,
    hence lap times of 65 s and 25 s. *)
Lemma lapSession_laps :
  map fst (lapCuts initialState (lapSession ++ [ClickStop]) []) = [65%Z; 90%Z]
  /\ map (fun l => (lapNumber l, time l, lapTime l))
       (laps (run initialState (lapSession ++ [ClickStop])))
     = [(1%nat, "01:05"%string, "01:05"%string);
        (2%nat, "01:30"%string, "00:25"%string)].
Proof. split; reflexivity. Qed.

(** ** Stop, and what is left to do afterwards *)

Lemma stopTracking_idempotent (s : State) :
  stopTracking (stopTracking s) = stopTracking s.
Proof. stop_cases s; reflexivity. Qed.

Lemma active_isTracking (s : State) :
  sessionActive s = true -> isTracking s = true.
Proof. unfold sessionActive. intros H. now apply andb_prop in H. Qed.

Lemma step_stop_enabled (s : State) :
  registrationsConsistent s -> isTracking s = true ->
  step s ClickStop = timerEffect s (stopTracking s).
Proof.
  intros (_ & _ & _ & Hperm) Htrk. unfold step. cbn [enabled handle].
  now rewrite (Hperm Htrk), Htrk.
Qed.

(** C6.  With the session guard true, [stopTracking] appends exactly one
    lap, the one [recordLap] builds from the current time and total,
    and the state it leaves is not tracking, has no start instant, and
    shows the same [elapsedTime].  In a reachable state the stop button
    does just that, and afterwards, until the next start, neither the
    elapsed time nor the list of laps changes. *)
Theorem stop_finalizes_lap :
  (forall s : State,
      sessionActive s = true ->
      laps (stopTracking s) = laps s ++ [lapOf s]
      /\ isTracking (stopTracking s) = false
      /\ startTimeRef (stopTracking s) = None
      /\ elapsedTime (stopTracking s) = elapsedTime s)
  /\ (forall es es' : list Event,
         sessionActive (run initialState es) = true ->
         noStart es' = true ->
         let s := run initialState es in
         let s' := step s ClickStop in
         laps s' = laps s ++ [lapOf s]
         /\ isTracking s' = false
         /\ elapsedTime (run s' es') = elapsedTime s
         /\ laps (run s' es') = laps s').
Proof.
  split.
  - intros s Hact. split.
    + rewrite stopTracking_laps, recordLap_active by exact Hact. reflexivity.
    + destruct (stopTracking_cleared s) as (H1 & H2 & _).
      repeat split; try assumption. apply stopTracking_elapsedTime.
  - intros es es' Hact Hns s s'.
    pose proof (reachable_consistent es) as Hinv. fold s in Hinv, Hact.
    pose proof (stop_quiescent s Hinv) as Hq. fold s' in Hq.
    destruct (run_quiescent es' s' Hq Hns) as (He & _ & _ & Hl).
    assert (Hs' : s' = timerEffect s (stopTracking s)).
    { apply step_stop_enabled; [ exact Hinv | now apply active_isTracking ]. }
    repeat split.
    + rewrite Hs', timerEffect_laps, stopTracking_laps,
        recordLap_active by exact Hact. reflexivity.
    + apply Hq.
    + rewrite He, Hs', timerEffect_elapsedTime. apply stopTracking_elapsedTime.
    + exact Hl.
Qed.

Lemma stop_finalizes_lap_witness :
  let s := run initialState lapSession in
  let s' := step s ClickStop in
  List.length (laps s) = 1%nat
  /\ laps s' = laps s ++ [lapOf s]
  /\ isTracking s' = false
  /\ elapsedTime (run s' [TimerFires 120000; ClickLap; ClickStop]) = elapsedTime s
  /\ laps (run s' [TimerFires 120000; ClickLap; ClickStop]) = laps s'.
Proof.
  split; [ reflexivity | ].
  apply (proj2 stop_finalizes_lap lapSession
           [TimerFires 120000; ClickLap; ClickStop]); reflexivity.
Defined.

(** C7 (as stated, refuted).  Not every handler is a no-op outside its
    phase: [startTracking] called on a running session with a lap taken
    clears the laps and restarts, and the timer callback run on the
    stopped session overwrites the elapsed time. *)
Lemma unguarded_handlers_change_state :
  let running := run initialState lapSession in
  let stopped := run initialState (lapSession ++ [ClickStop]) in
  sessionActive running = true
  /\ startTracking 99000 false running <> running
  /\ sessionActive stopped = false
  /\ onTimer 200000 stopped <> stopped.
Proof.
  split; [ reflexivity | ]. split; [ | split; [ reflexivity | ] ].
  - intros Heq. apply (f_equal laps) in Heq. discriminate Heq.
  - intros Heq. apply (f_equal elapsedTime) in Heq. discriminate Heq.
Qed.

(** C7 (amended).  Lap and stop outside an active session do nothing,
    and no handler fails: [recordLap] returns the state unchanged when
    the session guard is false (before any start, after a stop); a
    second [stopTracking] returns the state of the first, so it adds no
    lap and leaves [elapsedTime] alone; when not tracking the lap and
    stop buttons are not rendered, so their clicks change nothing.
    Start and tick are kept out of the wrong phase by the component, not
    by their handlers, which have no guard: while tracking the start
    button is not rendered, and in a reachable state whose session is
    not active no interval is registered, so these events change
    nothing either. *)
Theorem invalid_phase_is_noop :
  (forall s : State, sessionActive s = false -> recordLap s = s)
  /\ (forall s : State,
         stopTracking (stopTracking s) = stopTracking s
         /\ laps (stopTracking (stopTracking s)) = laps (stopTracking s)
         /\ elapsedTime (stopTracking (stopTracking s))
            = elapsedTime (stopTracking s))
  /\ (forall s : State,
         sessionActive (stopTracking s) = false
         /\ recordLap (stopTracking s) = stopTracking s)
  /\ (forall s : State,
         step (step s ClickStop) ClickStop = step s ClickStop)
  /\ (forall s : State,
         isTracking s = false ->
         step s ClickLap = s /\ step s ClickStop = s)
  /\ recordLap initialState = initialState
  /\ stopTracking initialState = initialState
  /\ (forall (s : State) (t : Z),
         isTracking s = true -> step s (ClickStart t) = s)
  /\ (forall (es : list Event) (now : Z),
         sessionActive (run initialState es) = false ->
         step (run initialState es) (TimerFires now) = run initialState es).
Proof.
  split; [ exact recordLap_inactive | ].
  split; [ intros s; now rewrite stopTracking_idempotent | ].
  assert (Hstopped : forall s, sessionActive (stopTracking s) = false).
  { intros s. unfold sessionActive.
    destruct (stopTracking_cleared s) as (H1 & _). now rewrite H1. }
  split; [ intros s; split; [ apply Hstopped
                           | apply recordLap_inactive, Hstopped ] | ].
  split; [ | split; [ | split; [ reflexivity | split; [ reflexivity | ] ] ] ].
  - intros s. unfold step at 2 3. cbn [enabled handle].
    destruct (hasLocationPermission s && isTracking s) eqn:Hen.
    + unfold step. cbn [enabled].
      rewrite timerEffect_isTracking.
      destruct (stopTracking_cleared s) as (H1 & _).
      now rewrite H1, andb_false_r.
    + unfold step. cbn [enabled]. now rewrite Hen.
  - intros s Htrk. unfold step. cbn [enabled].
    now rewrite Htrk, andb_false_r.
  - split.
    + intros s t Htrk. unfold step. cbn [enabled].
      now rewrite Htrk, andb_false_r.
    + intros es now Hact.
      destruct (reachable_consistent es) as (Htimer & _).
      unfold step. cbn [enabled]. now rewrite Htimer, Hact.
Qed.

Lemma invalid_phase_is_noop_witness :
  let stopped := run initialState (lapSession ++ [ClickStop]) in
  let running := run initialState lapSession in
  recordLap stopped = stopped
  /\ (step stopped ClickLap = stopped /\ step stopped ClickStop = stopped)
  /\ step running (ClickStart 99000) = running
  /\ step stopped (TimerFires 200000) = stopped.
Proof.
  pose proof invalid_phase_is_noop
    as (Hlap & _ & _ & _ & Hclicks & _ & _ & Hstart & Htick).
  split; [ | split; [ | split ] ].
  - apply Hlap. reflexivity.
  - apply Hclicks. reflexivity.
  - apply Hstart. reflexivity.
  - apply (Htick (lapSession ++ [ClickStop]) 200000%Z). reflexivity.
Defined.

(** C8.  Once the stop has taken effect in a reachable state, no event
    other than a new start changes the anchor or the total: the watch is
    cleared, so no fix is delivered, and the remaining handlers do not
    write these fields.  (The stop itself clears the anchor and keeps
    the total.) *)
Theorem accumulator_frozen_after_stop (es es' : list Event) :
  noStart es' = true ->
  let stopped := step (run initialState es) ClickStop in
  lastPositionRef (run stopped es') = lastPositionRef stopped
  /\ totalDistance (run stopped es') = totalDistance stopped.
Proof.
  intros Hns stopped.
  assert (Hq : quiescent stopped)
    by (apply stop_quiescent, reachable_consistent).
  destruct (run_quiescent es' stopped Hq Hns) as (_ & Ht & Hp & _).
  now split.
Qed.

Lemma accumulator_frozen_after_stop_witness :
  let stopped := step (run initialState lapSession) ClickStop in
  let later :=
    run stopped [PositionFix 10 10 200000; TimerFires 200000; ClickLap;
                 ClickStop; PositionFix 20 20 300000] in
  lastPositionRef later = lastPositionRef stopped
  /\ totalDistance later = totalDistance stopped.
Proof.
  apply (accumulator_frozen_after_stop lapSession
           [PositionFix 10 10 200000; TimerFires 200000; ClickLap;
            ClickStop; PositionFix 20 20 300000]).
  reflexivity.
Defined.

(** ** The timer *)

Lemma step_start_enabled (s : State) (t0 : Z) :
  enabled s (ClickStart t0) = true ->
  let s' := step s (ClickStart t0) in
  startTimeRef s' = Some t0
  /\ timerRef s' = negb (t0 =? 0)%Z
  /\ elapsedTime s' = 0%Z.
Proof.
  intros Hen. unfold step. rewrite Hen. cbn [handle enabled] in *.
  apply andb_prop in Hen as [Hp Htrk]. apply negb_true_iff in Htrk.
  unfold timerEffect, startTracking, sessionActive.
  rewrite Hp, Htrk. cbn. repeat split.
Qed.

Lemma step_timer_active (es : list Event) (now : Z) :
  sessionActive (run initialState es) = true ->
  step (run initialState es) (TimerFires now)
  = onTimer now (run initialState es).
Proof.
  intros Hact. destruct (reachable_consistent es) as (Htimer & _).
  unfold step. cbn [enabled handle]. rewrite Htimer, Hact.
  now apply timerEffect_same.
Qed.

Lemma formatTime_below_hour (sec : Z) :
  (0 <= sec < 3600)%Z ->
  formatTime sec = (pad2 (sec / 60) ++ ":" ++ pad2 (sec mod 60))%string.
Proof.
  intros Hsec. unfold formatTime.
  rewrite (Z.div_small sec 3600) by lia. cbn [Z.ltb Z.compare].
  rewrite (Z.rem_small sec 3600) by lia.
  rewrite Z.rem_mod_nonneg by lia. reflexivity.
Qed.

(** C9.  The timer callback sets [elapsedTime] to
    floor ((now - startTimeRef) / 1000), and in a reachable state with an
    active session the timer event runs exactly this callback.  After
    [startTracking] at any instant [t0], the callback at [t0 + 65000]
    gives 65; in the event loop the same holds for a start at an instant
    other than 0, which the session guard reads as no start time.
    [formatTime 65] is 01:05: below one hour the result is the minutes
    and the seconds, each padded to two digits, with no hours segment. *)
Theorem tick_recomputes_elapsed :
  (forall (s : State) (now t0 : Z),
      startTimeRef s = Some t0 ->
      elapsedTime (onTimer now s) = ((now - t0) / 1000)%Z)
  /\ (forall (es : list Event) (now : Z),
         sessionActive (run initialState es) = true ->
         step (run initialState es) (TimerFires now)
         = onTimer now (run initialState es))
  /\ (forall (s : State) (t0 : Z) (granted : bool),
         hasLocationPermission s = true ->
         elapsedTime (onTimer (t0 + 65000) (startTracking t0 granted s))
         = 65%Z)
  /\ (forall (s : State) (t0 : Z),
         enabled s (ClickStart t0) = true ->
         t0 <> 0%Z ->
         elapsedTime (run s [ClickStart t0; TimerFires (t0 + 65000)]) = 65%Z)
  /\ formatTime 65 = "01:05"%string
  /\ (forall sec : Z,
         (0 <= sec < 3600)%Z ->
         formatTime sec
         = (pad2 (sec / 60) ++ ":" ++ pad2 (sec mod 60))%string).
Proof.
  split; [ | split; [ | split; [ | split; [ | split ] ] ] ].
  - intros s now t0 Hstart. unfold onTimer. now rewrite Hstart.
  - exact step_timer_active.
  - intros s t0 granted Hperm. unfold startTracking. rewrite Hperm. cbn.
    replace (t0 + 65000 - t0)%Z with 65000%Z by lia. reflexivity.
  - intros s t0 Hen Hnz.
    change (run s [ClickStart t0; TimerFires (t0 + 65000)])
      with (step (step s (ClickStart t0)) (TimerFires (t0 + 65000))).
    destruct (step_start_enabled s t0 Hen) as (Hst & Htm & _).
    unfold step at 1. cbn [enabled handle]. rewrite Htm.
    apply Z.eqb_neq in Hnz. rewrite Hnz. cbn [negb].
    rewrite timerEffect_elapsedTime. unfold onTimer. rewrite Hst.
    cbn [elapsedTime set_elapsedTime].
    replace (t0 + 65000 - t0)%Z with 65000%Z by lia. reflexivity.
  - reflexivity.
  - exact formatTime_below_hour.
Qed.

Lemma tick_recomputes_elapsed_witness :
  elapsedTime (onTimer 126999 (run initialState lapSession))
  = ((126999 - 1000) / 1000)%Z
  /\ step (run initialState lapSession) (TimerFires 126999)
     = onTimer 126999 (run initialState lapSession)
  /\ elapsedTime
       (run (step initialState (ClickEnableGPS true))
          [ClickStart 1700000000000; TimerFires (1700000000000 + 65000)])
     = 65%Z
  /\ formatTime 3599 = "59:59"%string.
Proof.
  pose proof tick_recomputes_elapsed as (Ha & Hb & _ & Hd & _ & Hf).
  split; [ | split; [ | split ] ].
  - apply Ha. reflexivity.
  - apply Hb. reflexivity.
  - apply Hd; [ reflexivity | discriminate ].
  - rewrite Hf by lia. reflexivity.
Defined.

(** * Further properties *)

(** ** More on the distance function *)

Lemma calculateDistance_term (p1 p2 : Position) :
  calculateDistance p1 p2
  = earthRadius
    * (2 * JsMath.atan2 (sqrt (haversineTerm p1 p2))
             (sqrt (1 - haversineTerm p1 p2))).
Proof. reflexivity. Qed.

Lemma haversineTerm_sym (p1 p2 : Position) :
  haversineTerm p1 p2 = haversineTerm p2 p1.
Proof.
  unfold haversineTerm.
  replace ((latitude p1 - latitude p2) * PI / 180 / 2)
    with (- ((latitude p2 - latitude p1) * PI / 180 / 2)) by lra.
  replace ((longitude p1 - longitude p2) * PI / 180 / 2)
    with (- ((longitude p2 - longitude p1) * PI / 180 / 2)) by lra.
  rewrite !sin_neg. ring.
Qed.

(** X1.  The distance does not depend on the direction of travel (nor
    on the timestamps): [calculateDistance p1 p2 = calculateDistance p2
    p1] for all positions. *)
Theorem calculateDistance_symmetric (p1 p2 : Position) :
  calculateDistance p1 p2 = calculateDistance p2 p1.
Proof.
  rewrite !calculateDistance_term, (haversineTerm_sym p1 p2). reflexivity.
Qed.

(** X3.  Along a meridian (equal longitudes, latitudes 0 to less than
    180 degrees apart) and along the equator (latitude 0, longitudes 0
    to less than 180 degrees apart) the distance is the radius times the
    angle between the two positions in radians. *)
Theorem calculateDistance_on_great_circles :
  (forall (lat1 lat2 lon : R) (t1 t2 : Z),
      0 <= lat2 - lat1 < 180 ->
      calculateDistance (mkPosition lat1 lon t1) (mkPosition lat2 lon t2)
      = earthRadius * ((lat2 - lat1) * PI / 180))
  /\ (forall (lon1 lon2 : R) (t1 t2 : Z),
         0 <= lon2 - lon1 < 180 ->
         calculateDistance (mkPosition 0 lon1 t1) (mkPosition 0 lon2 t2)
         = earthRadius * ((lon2 - lon1) * PI / 180)).
Proof.
  split; [ | exact distance_along_equator ].
  intros lat1 lat2 lon t1 t2 Hlat.
  unfold calculateDistance; cbn [latitude longitude].
  set (x := (lat2 - lat1) * PI / 180 / 2).
  pose proof PI_RGT_0 as Hpi.
  assert (Hx : 0 <= x < PI / 2).
  { unfold x. split.
    - apply Rmult_le_pos; [ | lra ]. apply Rmult_le_pos; [ | lra ].
      apply Rmult_le_pos; lra.
    - assert ((lat2 - lat1) * PI < 180 * PI)
        by (apply Rmult_lt_compat_r; lra).
      lra. }
  replace ((lon - lon) * PI / 180 / 2) with 0 by lra.
  rewrite sin_0.
  replace (sin x * sin x
           + cos (lat1 * PI / 180) * cos (lat2 * PI / 180) * 0 * 0)
    with (sin x * sin x) by ring.
  rewrite sqrt_sin_sq by lra.
  rewrite sqrt_cos_sq by lra.
  rewrite atan2_sin_cos by lra.
  unfold x. field.
Qed.

Lemma calculateDistance_on_great_circles_witness :
  calculateDistance (mkPosition (-10) 25 0) (mkPosition 80 25 1000)
  = earthRadius * ((80 - -10) * PI / 180)
  /\ calculateDistance (mkPosition 0 170 0) (mkPosition 0 171 1000)
     = earthRadius * ((171 - 170) * PI / 180).
Proof.
  split.
  - apply (proj1 calculateDistance_on_great_circles). lra.
  - apply (proj2 calculateDistance_on_great_circles). lra.
Defined.

(** ** Sequences of fixes *)

Lemma deliver_anchor (s : State) (p : Position) :
  lastPositionRef (deliver s p) = Some p.
Proof. destruct p. reflexivity. Qed.

Lemma deliver_total (s : State) (p : Position) :
  totalDistance (deliver s p)
  = totalDistance s + acceptedDistance (lastPositionRef s) [p].
Proof.
  destruct p as [lat lon t]. unfold deliver, onPosition; cbn.
  destruct (lastPositionRef s) as [a | ]; cbn.
  - destruct (Rgt_dec _ 5); cbn; lra.
  - lra.
Qed.

(** X4.  After any sequence of fixes the total is what it was plus the
    length of the path through the fixes, counting a leg from one fix
    to the next only when it is longer than 5 m; the first leg starts at
    the stored anchor, and without an anchor the first fix adds
    nothing. *)
Theorem total_is_accepted_path_length (fixes : list Position) :
  forall s : State,
    totalDistance (fold_left deliver fixes s)
    = totalDistance s + acceptedDistance (lastPositionRef s) fixes.
Proof.
  induction fixes as [ | p rest IH]; intros s; cbn [fold_left].
  - cbn. lra.
  - rewrite IH, deliver_anchor, deliver_total. cbn. lra.
Qed.

Lemma deliver_rejected (s : State) (a p : Position) :
  lastPositionRef s = Some a ->
  calculateDistance a p <= 5 ->
  totalDistance (deliver s p) = totalDistance s.
Proof.
  intros Ha Hd. destruct p as [lat lon t]. unfold deliver; cbn.
  now apply onPosition_rejected with (p := a).
Qed.

(** X5.  Movement that never covers more than 5 m between two
    consecutive fixes is never counted: the total stays where it was
    however far the last fix is from the first, because every fix,
    counted or not, becomes the next comparison point. *)
Theorem slow_drift_is_never_counted (fixes : list Position) :
  forall (s : State) (a : Position),
    lastPositionRef s = Some a ->
    slowDrift a fixes ->
    totalDistance (fold_left deliver fixes s) = totalDistance s.
Proof.
  induction fixes as [ | p rest IH]; intros s a Ha Hslow; cbn [fold_left].
  - reflexivity.
  - destruct Hslow as [Hd Hrest].
    rewrite (IH (deliver s p) p (deliver_anchor s p) Hrest).
    now apply deliver_rejected with (a := a).
Qed.

Lemma lonAtMeters_leg (m1 m2 : R) (t1 t2 : Z) :
  0 <= m1 <= m2 -> m2 <= 1000 ->
  calculateDistance (mkPosition 0 (lonAtMeters m1) t1)
    (mkPosition 0 (lonAtMeters m2) t2) = m2 - m1.
Proof.
  intros Hm1 Hm2. pose proof PI_lower as Hpi.
  assert (Hden : 0 < PI * earthRadius).
  { unfold earthRadius. apply Rmult_lt_0_compat; lra. }
  assert (Hbig : 1000 < PI * earthRadius).
  { unfold earthRadius. nra. }
  assert (Hdiff : lonAtMeters m2 - lonAtMeters m1
                  = (m2 - m1) * 180 / (PI * earthRadius)).
  { unfold lonAtMeters. field. unfold earthRadius. lra. }
  assert (Hlon : 0 <= lonAtMeters m2 - lonAtMeters m1 < 180).
  { rewrite Hdiff. split.
    - apply Rmult_le_pos; [ lra | left; now apply Rinv_0_lt_compat ].
    - apply Rmult_lt_reg_r with (r := PI * earthRadius); [ assumption | ].
      unfold Rdiv. rewrite Rmult_assoc, Rinv_l by lra. nra. }
  rewrite distance_along_equator by assumption.
  rewrite Hdiff. unfold earthRadius. field. lra.
Qed.

Lemma slow_drift_witness :
  calculateDistance (mkPosition 0 0 1000) (mkPosition 0 (lonAtMeters 12) 5000)
  = 12
  /\ totalDistance (fold_left deliver driftFixes oneFixSession)
     = totalDistance oneFixSession.
Proof.
  split.
  - apply lonAtMeters_distance. lra.
  - apply (slow_drift_is_never_counted driftFixes oneFixSession
             (mkPosition 0 0 1000)).
    + reflexivity.
    + cbn. repeat split.
      * rewrite lonAtMeters_distance; lra.
      * rewrite lonAtMeters_leg; lra.
      * rewrite lonAtMeters_leg; lra.
      * rewrite lonAtMeters_leg; lra.
Defined.

(** X6.  A fix with the coordinates of the anchor, whatever its
    timestamp, is at distance 0 and leaves the total unchanged: a
    receiver at rest accumulates nothing. *)
Theorem stationary_fix_adds_nothing
    (s : State) (a : Position) (now : Z) :
  lastPositionRef s = Some a ->
  calculateDistance a (mkPosition (latitude a) (longitude a) now) = 0
  /\ totalDistance (onPosition (latitude a) (longitude a) now s)
     = totalDistance s.
Proof.
  intros Ha.
  assert (Hd := distance_same_coordinates a now).
  split; [ exact Hd | ].
  apply onPosition_rejected with (p := a); [ exact Ha | ].
  rewrite Hd. lra.
Qed.

Lemma stationary_fix_witness :
  calculateDistance (mkPosition 0 0 1000) (mkPosition 0 0 9000) = 0
  /\ totalDistance (onPosition 0 0 9000 oneFixSession)
     = totalDistance oneFixSession.
Proof.
  apply (stationary_fix_adds_nothing oneFixSession (mkPosition 0 0 1000) 9000).
  reflexivity.
Defined.

(** ** More invariants of the event loop *)

Lemma run_invariant (P : State -> Prop) :
  (forall s e, P s -> P (step s e)) ->
  forall es s, P s -> P (run s es).
Proof.
  intros Hstep es. induction es as [ | e es IH]; intros s Hs.
  - exact Hs.
  - rewrite run_cons. apply IH, Hstep, Hs.
Qed.

(** What a step does to the laps, the lap baseline and the total. *)
Lemma step_accounting_cases (s : State) (e : Event) :
  (laps (step s e) = laps s
   /\ lastLapDistanceRef (step s e) = lastLapDistanceRef s
   /\ totalDistance s <= totalDistance (step s e))
  \/ (isStart e = true
      /\ laps (step s e) = []
      /\ lastLapDistanceRef (step s e) = 0
      /\ totalDistance (step s e) = 0)
  \/ (isStart e = false
      /\ laps (step s e) = laps s ++ [lapOf s]
      /\ lastLapDistanceRef (step s e) = totalDistance s
      /\ totalDistance (step s e) = totalDistance s).
Proof.
  unfold step. destruct (enabled s e) eqn:Hen;
    [ | left; repeat split; apply Rle_refl ].
  rewrite timerEffect_laps, timerEffect_lastLapDistanceRef,
    timerEffect_totalDistance.
  destruct e as [g | t | | | t | lat lon t]; cbn [handle enabled isStart] in *.
  - left. unfold requestLocationPermission.
    destruct g; cbn; repeat split; apply Rle_refl.
  - right; left. apply andb_prop in Hen as [Hp _].
    unfold startTracking. rewrite Hp. cbn. repeat split.
  - destruct (sessionActive s) eqn:Hact.
    + right; right. rewrite recordLap_active by exact Hact. cbn.
      repeat split.
    + left. rewrite recordLap_inactive by exact Hact.
      repeat split; apply Rle_refl.
  - rewrite stopTracking_laps, stopTracking_lastLapDistanceRef,
      stopTracking_totalDistance.
    destruct (sessionActive s) eqn:Hact.
    + right; right. rewrite recordLap_active by exact Hact. cbn.
      repeat split.
    + left. rewrite recordLap_inactive by exact Hact.
      repeat split; apply Rle_refl.
  - left. cbn. repeat split; apply Rle_refl.
  - left. split; [ | split ].
    + unfold onPosition.
      destruct (lastPositionRef s); [ destruct (Rgt_dec _ 5) | ]; reflexivity.
    + unfold onPosition.
      destruct (lastPositionRef s); [ destruct (Rgt_dec _ 5) | ]; reflexivity.
    + apply onPosition_total_le.
Qed.

Lemma timerEffect_watchIdRef (a b : State) :
  watchIdRef (timerEffect a b) = watchIdRef b.
Proof. timer_effect_field. Qed.

Lemma step_tracking_has_watch (s : State) (e : Event) :
  (isTracking s = true -> watchIdRef s <> None) ->
  isTracking (step s e) = true -> watchIdRef (step s e) <> None.
Proof.
  intros Hinv. unfold step. destruct (enabled s e) eqn:Hen; [ | exact Hinv ].
  rewrite timerEffect_isTracking, timerEffect_watchIdRef.
  destruct e as [g | t | | | t | lat lon t]; cbn [handle enabled] in *.
  - unfold requestLocationPermission. destruct g; exact Hinv.
  - apply andb_prop in Hen as [Hp _].
    unfold startTracking. rewrite Hp. cbn. discriminate.
  - destruct (sessionActive s) eqn:Hact.
    + rewrite recordLap_active by exact Hact. exact Hinv.
    + rewrite recordLap_inactive by exact Hact. exact Hinv.
  - destruct (stopTracking_cleared s) as (H1 & _). rewrite H1. discriminate.
  - exact Hinv.
  - unfold onPosition.
    destruct (lastPositionRef s); [ destruct (Rgt_dec _ 5) | ]; exact Hinv.
Qed.

(** X7.  In every state the component can reach, the registrations
    follow the session: while tracking exactly one geolocation watch is
    registered, the one [watchIdRef] names; while not tracking none is,
    and no interval either; the interval exists exactly when the session
    guard holds. *)
Theorem registrations_follow_session (es : list Event) :
  let s := run initialState es in
  (isTracking s = true ->
   exists i : nat, watchIdRef s = Some i /\ activeWatches s = [i])
  /\ (isTracking s = false ->
      watchIdRef s = None /\ activeWatches s = [] /\ timerRef s = false)
  /\ timerRef s = sessionActive s.
Proof.
  intros s.
  destruct (reachable_consistent es) as (Htimer & Hwatches & Hidle & _).
  fold s in Htimer, Hwatches, Hidle.
  assert (Hhas : isTracking s = true -> watchIdRef s <> None).
  { unfold s.
    apply (run_invariant
             (fun s => isTracking s = true -> watchIdRef s <> None)).
    - exact step_tracking_has_watch.
    - discriminate. }
  split; [ | split ].
  - intros Htrk. specialize (Hhas Htrk).
    destruct (watchIdRef s) as [i | ]; [ | contradiction ].
    exists i. auto.
  - intros Htrk. rewrite (Hidle Htrk) in Hwatches.
    repeat split; auto.
    rewrite Htimer. unfold sessionActive. now rewrite Htrk.
  - exact Htimer.
Qed.

Lemma lapNumber_snoc (ls : list Lap) (l : Lap) :
  map lapNumber ls = seq 1 (List.length ls) ->
  lapNumber l = (List.length ls + 1)%nat ->
  map lapNumber (ls ++ [l]) = seq 1 (List.length (ls ++ [l])).
Proof.
  intros Hls Hl.
  rewrite map_app, length_app, seq_app, Hls. cbn.
  rewrite Hl. f_equal. f_equal. lia.
Qed.

Lemma step_numbering (s : State) (e : Event) :
  map lapNumber (laps s) = seq 1 (List.length (laps s)) ->
  map lapNumber (laps (step s e)) = seq 1 (List.length (laps (step s e))).
Proof.
  intros Hinv.
  destruct (step_accounting_cases s e)
    as [(Hl & _) | [(_ & Hl & _) | (_ & Hl & _)]]; rewrite Hl.
  - exact Hinv.
  - reflexivity.
  - now apply lapNumber_snoc.
Qed.

(** X8.  In every reachable state the laps are numbered 1, 2, ..., n in
    the order they were taken; the list is rendered newest first, so the
    cards carry the numbers n, ..., 1, and no two cards share a key. *)
Theorem laps_are_numbered_in_order (es : list Event) :
  let s := run initialState es in
  let n := List.length (laps s) in
  map lapNumber (laps s) = seq 1 n
  /\ map lapNumber (displayedLaps s) = rev (seq 1 n)
  /\ NoDup (map lapNumber (displayedLaps s)).
Proof.
  intros s n.
  assert (Hnum : map lapNumber (laps s) = seq 1 n).
  { unfold n, s.
    apply (run_invariant
             (fun s => map lapNumber (laps s)
                       = seq 1 (List.length (laps s)))).
    - exact step_numbering.
    - reflexivity. }
  assert (Hshown : map lapNumber (displayedLaps s) = rev (seq 1 n)).
  { unfold displayedLaps. now rewrite map_rev, Hnum. }
  repeat split; try assumption.
  rewrite Hshown. apply NoDup_rev, seq_NoDup.
Qed.

Lemma sumLapDistance_snoc (ls : list Lap) (l : Lap) :
  sumLapDistance (ls ++ [l]) = sumLapDistance ls + lapDistance l.
Proof.
  unfold sumLapDistance. induction ls as [ | l0 ls IH]; cbn.
  - lra.
  - rewrite IH. lra.
Qed.

Lemma step_accounted (s : State) (e : Event) :
  distanceAccounted s -> distanceAccounted (step s e).
Proof.
  intros (Hrange & Hpos & Hsum). unfold distanceAccounted.
  destruct (step_accounting_cases s e)
    as [(Hl & Hr & Ht) | [(_ & Hl & Hr & Ht) | (_ & Hl & Hr & Ht)]];
    rewrite Hl, Hr.
  - repeat split; try assumption; lra.
  - rewrite Ht. cbn. repeat split; try lra. constructor.
  - rewrite Ht, sumLapDistance_snoc, Hsum. cbn.
    repeat split; try lra.
    apply Forall_app. split; [ assumption | ].
    constructor; [ cbn; lra | constructor ].
Qed.

Lemma reachable_accounted (es : list Event) :
  distanceAccounted (run initialState es).
Proof.
  apply (run_invariant distanceAccounted).
  - exact step_accounted.
  - unfold distanceAccounted. cbn. repeat split; try lra. constructor.
Qed.

(** X9.  In every reachable state the total is non-negative, no lap has
    a negative distance, and the lap distances add up to the total as it
    was at the last lap, which is at most the current total. *)
Theorem lap_distances_add_up (es : list Event) :
  let s := run initialState es in
  0 <= totalDistance s
  /\ Forall (fun l => 0 <= lapDistance l) (laps s)
  /\ sumLapDistance (laps s) = lastLapDistanceRef s
  /\ sumLapDistance (laps s) <= totalDistance s.
Proof.
  intros s. destruct (reachable_accounted es) as (Hrange & Hpos & Hsum).
  fold s in Hrange, Hpos, Hsum.
  repeat split; try assumption; lra.
Qed.

(** X10.  When an active session is stopped, the laps account for the
    whole distance: after the stop the lap distances add up to the
    total. *)
Theorem stop_accounts_for_whole_distance (es : list Event) :
  sessionActive (run initialState es) = true ->
  let s' := step (run initialState es) ClickStop in
  sumLapDistance (laps s') = totalDistance s'.
Proof.
  intros Hact s'.
  set (s := run initialState es) in *.
  destruct (reachable_accounted es) as (Hrange & Hpos & Hsum).
  fold s in Hrange, Hpos, Hsum.
  assert (Hs' : s' = timerEffect s (stopTracking s)).
  { apply step_stop_enabled;
      [ apply reachable_consistent | now apply active_isTracking ]. }
  rewrite Hs', timerEffect_laps, timerEffect_totalDistance.
  rewrite stopTracking_laps, stopTracking_totalDistance.
  rewrite recordLap_active by exact Hact. cbn.
  rewrite sumLapDistance_snoc, Hsum. cbn. lra.
Qed.

Lemma stop_accounts_for_whole_distance_witness :
  let s' := step (run initialState lapSession) ClickStop in
  List.length (laps s') = 2%nat
  /\ sumLapDistance (laps s') = totalDistance s'.
Proof.
  split; [ reflexivity | ].
  apply (stop_accounts_for_whole_distance lapSession). reflexivity.
Defined.

Lemma step_laps_extend (s : State) (e : Event) :
  isStart e = false -> exists more, laps (step s e) = laps s ++ more.
Proof.
  intros Hns.
  destruct (step_accounting_cases s e)
    as [(Hl & _) | [(Hst & _) | (_ & Hl & _)]].
  - exists []. now rewrite app_nil_r.
  - rewrite Hns in Hst. discriminate.
  - now exists [lapOf s].
Qed.

(** X11.  Laps are append-only: over any sequence of events with no new
    start, the laps already taken remain, unchanged and in order, at the
    front of the list. *)
Theorem laps_are_append_only (es : list Event) :
  forall s : State,
    noStart es = true ->
    exists more : list Lap, laps (run s es) = laps s ++ more.
Proof.
  induction es as [ | e es IH]; intros s Hns.
  - exists []. cbn. now rewrite app_nil_r.
  - rewrite run_cons. cbn in Hns. apply andb_prop in Hns as [He Hes].
    apply negb_true_iff in He.
    destruct (step_laps_extend s e He) as [m1 H1].
    destruct (IH (step s e) Hes) as [m2 H2].
    exists (m1 ++ m2). now rewrite H2, H1, app_assoc.
Qed.

Lemma laps_are_append_only_witness :
  exists more : list Lap,
    laps (run (run initialState lapSession)
            [TimerFires 200000; ClickLap; PositionFix 1 1 200500; ClickStop])
    = laps (run initialState lapSession) ++ more.
Proof.
  apply (laps_are_append_only
           [TimerFires 200000; ClickLap; PositionFix 1 1 200500; ClickStop]).
  reflexivity.
Defined.

(** ** Permission *)

Lemma step_keeps_permission (s : State) (e : Event) :
  hasLocationPermission s = true -> hasLocationPermission (step s e) = true.
Proof.
  intros Hp. unfold step. destruct (enabled s e); [ | exact Hp ].
  assert (Ht : forall a b, hasLocationPermission (timerEffect a b)
                           = hasLocationPermission b)
    by (intros; timer_effect_field).
  rewrite Ht.
  destruct e as [g | t | | | t | lat lon t]; cbn [handle].
  - unfold requestLocationPermission. destruct g; [ reflexivity | exact Hp ].
  - unfold startTracking. rewrite Hp. cbn. exact Hp.
  - unfold recordLap.
    now destruct (negb (isTracking s) || negb (truthy (startTimeRef s))).
  - revert Hp. stop_cases s; auto.
  - exact Hp.
  - unfold onPosition.
    destruct (lastPositionRef s); [ destruct (Rgt_dec _ 5) | ]; exact Hp.
Qed.

(** X12.  Without the location permission [startTracking] starts
    nothing: it only passes on the outcome of the permission request,
    and the session data, the tracking flag and the registered watches
    stay as they were, so a second call is needed to start.  Once
    granted, the permission is never taken back by any event, and no
    reachable state is tracking without it. *)
Theorem tracking_needs_permission :
  (forall (s : State) (now : Z) (granted : bool),
      hasLocationPermission s = false ->
      let s' := startTracking now granted s in
      hasLocationPermission s' = granted
      /\ s' = requestLocationPermission granted s
      /\ isTracking s' = isTracking s
      /\ startTimeRef s' = startTimeRef s
      /\ activeWatches s' = activeWatches s
      /\ laps s' = laps s /\ totalDistance s' = totalDistance s)
  /\ (forall (s : State) (es : list Event),
         hasLocationPermission s = true ->
         hasLocationPermission (run s es) = true)
  /\ (forall es : list Event,
         isTracking (run initialState es) = true ->
         hasLocationPermission (run initialState es) = true).
Proof.
  split; [ | split ].
  - intros s now granted Hp s'. unfold s', startTracking.
    rewrite Hp. cbn [negb]. unfold requestLocationPermission.
    destruct granted; cbn; repeat split; assumption.
  - intros s es Hp.
    now apply (run_invariant (fun s => hasLocationPermission s = true)
                 step_keeps_permission).
  - intros es. apply (reachable_consistent es).
Qed.

Lemma tracking_needs_permission_witness :
  startTracking 1000 false initialState = initialState
  /\ hasLocationPermission
       (run (step initialState (ClickEnableGPS true))
          (lapSession ++ [ClickStop; ClickEnableGPS false]))
     = true
  /\ hasLocationPermission (run initialState lapSession) = true.
Proof.
  pose proof tracking_needs_permission as (Ha & Hb & Hc).
  split; [ | split ].
  - destruct (Ha initialState 1000%Z false eq_refl) as (_ & Heq & _).
    exact Heq.
  - apply Hb. reflexivity.
  - apply Hc. reflexivity.
Defined.

(** ** Calling [startTracking] twice *)

(** X13.  [startTracking] does not clear a watch that is already
    registered: called twice in a row (which the rendered buttons do not
    allow), it leaves the first watch registered under an identifier
    that [watchIdRef] no longer holds, and the following [stopTracking]
    clears only the second watch, so fixes keep arriving after the
    stop. *)
Theorem double_start_leaks_watch
    (s : State) (t1 t2 : Z) (g1 g2 : bool) :
  hasLocationPermission s = true ->
  let started := startTracking t2 g2 (startTracking t1 g1 s) in
  let stopped := stopTracking started in
  watchIdRef started = Some (S (nextWatchId s))
  /\ In (nextWatchId s) (activeWatches started)
  /\ isTracking stopped = false
  /\ watchIdRef stopped = None
  /\ In (nextWatchId s) (activeWatches stopped)
  /\ forall lat lon now, enabled stopped (PositionFix lat lon now) = true.
Proof.
  intros Hp started stopped.
  assert (Hneq : Nat.eqb (nextWatchId s) (S (nextWatchId s)) = false)
    by (apply Nat.eqb_neq; lia).
  unfold stopped, started, startTracking, stopTracking, recordLap.
  destruct s as [trk perm el tot ls wid lp st tm lld llt aw nw].
  cbn in Hp, Hneq. subst perm. cbn.
  destruct (t2 =? 0)%Z; cbn; rewrite Nat.eqb_refl, Hneq; cbn;
    repeat split; auto.
Qed.

Lemma double_start_leaks_watch_witness :
  let s := step initialState (ClickEnableGPS true) in
  let stopped := stopTracking (startTracking 2000 false
                                 (startTracking 1000 false s)) in
  isTracking stopped = false
  /\ activeWatches stopped = [0%nat]
  /\ lastPositionRef (step stopped (PositionFix 1 1 3000))
     = Some (mkPosition 1 1 3000).
Proof.
  pose proof (double_start_leaks_watch
                (step initialState (ClickEnableGPS true))
                1000%Z 2000%Z false false eq_refl) as (_ & _ & H3 & _).
  split; [ exact H3 | ]. split; reflexivity.
Defined.

(** ** Sessions do not depend on what came before *)

Ltac iff_absurd :=
  match goal with
  | H : ?A <-> ?B |- _ =>
      first [ (assert A by (apply H; reflexivity); discriminate)
            | (assert B by (apply H; reflexivity); discriminate) ]
  end.

Ltac same_fields :=
  unfold sameSession; cbn;
  repeat split; try reflexivity; try assumption; intros; try discriminate.

Lemma step_sameSession (s1 s2 : State) (e : Event) :
  registrationsConsistent s1 -> registrationsConsistent s2 ->
  sameSession s1 s2 ->
  sameSession (step s1 e) (step s2 e).
Proof.
  intros (T1 & W1 & I1 & P1) (T2 & W2 & I2 & P2) Hsame.
  destruct s1 as [trk1 perm1 el1 tot1 ls1 wid1 lp1 st1 tm1 lld1 llt1 aw1 nw1].
  destruct s2 as [trk2 perm2 el2 tot2 ls2 wid2 lp2 st2 tm2 lld2 llt2 aw2 nw2].
  clear T1 T2 I1 I2 P1 P2.
  unfold sameSession in *. cbn in *.
  destruct Hsame as (E1 & E2 & E3 & E4 & E5 & E6 & E7 & E8 & E9 & E10
                     & Haw & Hwid).
  subst trk2 perm2 el2 tot2 ls2 lp2 st2 tm2 lld2 llt2 aw1 aw2.
  destruct wid1 as [i1 | ], wid2 as [i2 | ]; try iff_absurd; clear Haw Hwid.
  - destruct e as [g | t | | | t | lat lon t];
      unfold step; cbn [handle enabled];
      unfold timerEffect, requestLocationPermission, startTracking,
        stopTracking, recordLap, onTimer, onPosition, sessionActive; cbn.
    + destruct perm1, g, trk1; same_fields.
    + destruct perm1, trk1; same_fields.
    + destruct perm1, trk1, (truthy st1); same_fields.
    + destruct perm1, trk1, (truthy st1); cbn; rewrite ?Nat.eqb_refl;
        same_fields.
    + destruct tm1, trk1; same_fields.
    + destruct lp1 as [a | ]; [ destruct (Rgt_dec _ 5) | ];
        destruct trk1; same_fields.
  - destruct e as [g | t | | | t | lat lon t];
      unfold step; cbn [handle enabled];
      unfold timerEffect, requestLocationPermission, startTracking,
        stopTracking, recordLap, onTimer, onPosition, sessionActive; cbn.
    + destruct perm1, g, trk1; same_fields.
    + destruct perm1, trk1; same_fields.
    + destruct perm1, trk1, (truthy st1); same_fields.
    + destruct perm1, trk1, (truthy st1); same_fields.
    + destruct tm1, trk1; same_fields.
    + same_fields.
Qed.

Lemma run_sameSession (es : list Event) :
  forall s1 s2 : State,
    registrationsConsistent s1 -> registrationsConsistent s2 ->
    sameSession s1 s2 ->
    sameSession (run s1 es) (run s2 es).
Proof.
  induction es as [ | e es IH]; intros s1 s2 H1 H2 Hsame.
  - exact Hsame.
  - rewrite !run_cons.
    apply IH; try (now apply step_consistent).
    now apply step_sameSession.
Qed.

Lemma start_sameSession (s1 s2 : State) (t : Z) :
  enabled s1 (ClickStart t) = true ->
  enabled s2 (ClickStart t) = true ->
  registrationsConsistent s1 -> registrationsConsistent s2 ->
  sameSession (step s1 (ClickStart t)) (step s2 (ClickStart t)).
Proof.
  intros En1 En2 (_ & W1 & I1 & _) (_ & W2 & I2 & _).
  unfold step. rewrite En1, En2. cbn [enabled handle] in *.
  apply andb_prop in En1 as [Hp1 Ht1]. apply negb_true_iff in Ht1.
  apply andb_prop in En2 as [Hp2 Ht2]. apply negb_true_iff in Ht2.
  destruct s1 as [trk1 perm1 el1 tot1 ls1 wid1 lp1 st1 tm1 lld1 llt1 aw1 nw1].
  destruct s2 as [trk2 perm2 el2 tot2 ls2 wid2 lp2 st2 tm2 lld2 llt2 aw2 nw2].
  cbn in *. subst.
  unfold timerEffect, startTracking, sessionActive. cbn.
  same_fields.
Qed.

(** X14.  A session takes nothing over from what came before: whatever
    the component went through earlier, when the start button is pressed
    at the same instant and the same events follow, the component shows
    and keeps the same elapsed time, total distance, laps, anchor and
    lap baselines. *)
Theorem new_session_ignores_history (es1 es2 es : list Event) (t : Z) :
  enabled (run initialState es1) (ClickStart t) = true ->
  enabled (run initialState es2) (ClickStart t) = true ->
  sameSession (run (run initialState es1) (ClickStart t :: es))
    (run (run initialState es2) (ClickStart t :: es)).
Proof.
  intros En1 En2. rewrite !run_cons.
  pose proof (reachable_consistent es1) as C1.
  pose proof (reachable_consistent es2) as C2.
  apply run_sameSession; try (now apply step_consistent).
  now apply start_sameSession.
Qed.

Lemma new_session_ignores_history_witness :
  let fresh := run initialState [ClickEnableGPS true] in
  let used := run initialState (lapSession ++ [ClickStop]) in
  let session :=
    [ClickStart 500000; PositionFix 5 5 500100; TimerFires 560000;
     PositionFix 5 6 560100; ClickLap; ClickStop] in
  laps used <> laps fresh /\ sameSession (run fresh session) (run used session).
Proof.
  split; [ discriminate | ].
  apply (new_session_ignores_history [ClickEnableGPS true]
           (lapSession ++ [ClickStop])); reflexivity.
Defined.

(** ** Strings and decimal digits *)

Lemma string_app_assoc (a b c : string) :
  ((a ++ b) ++ c = a ++ (b ++ c))%string.
Proof.
  induction a as [ | x a IH]; cbn; [ reflexivity | now rewrite IH ].
Qed.

Lemma string_app_length (a b : string) :
  String.length (a ++ b) = (String.length a + String.length b)%nat.
Proof.
  induction a as [ | x a IH]; cbn; [ reflexivity | now rewrite IH ].
Qed.

Lemma string_of_revapp (l d : Decimal.uint) :
  NilEmpty.string_of_uint (Decimal.revapp l d)
  = (NilEmpty.string_of_uint (Decimal.revapp l Decimal.Nil)
     ++ NilEmpty.string_of_uint d)%string.
Proof.
  revert d.
  induction l as [ | l IH | l IH | l IH | l IH | l IH | l IH | l IH | l IH
                   | l IH | l IH ];
    intros d; cbn [Decimal.revapp];
    [ reflexivity
    | rewrite (IH (_ d)), (IH (_ Decimal.Nil)); cbn;
      rewrite string_app_assoc; reflexivity .. ].
Qed.

Lemma to_lu_tenfold_plus (p : positive) (r : N) :
  (r < 10)%N ->
  NilEmpty.string_of_uint
    (Decimal.rev (DecimalPos.Unsigned.to_lu (10 * Npos p + r)))
  = (NilEmpty.string_of_uint
       (Decimal.rev (DecimalPos.Unsigned.to_lu (Npos p)))
     ++ String (ascii_of_nat (48 + N.to_nat r)) EmptyString)%string.
Proof.
  intros Hr.
  assert (Hcases : (r = 0 \/ r = 1 \/ r = 2 \/ r = 3 \/ r = 4 \/ r = 5
                    \/ r = 6 \/ r = 7 \/ r = 8 \/ r = 9)%N) by lia.
  pose proof (DecimalPos.Unsigned.to_ldec_tenfold p) as H10.
  set (n := (10 * N.pos p)%N) in *.
  set (l := DecimalPos.Unsigned.to_lu (N.pos p)) in *.
  assert (Hk : forall k, DecimalPos.Unsigned.to_lu (N.succ k)
                         = Decimal.Little.succ (DecimalPos.Unsigned.to_lu k))
    by exact DecimalPos.Unsigned.to_lu_succ.
  destruct Hcases as [-> | [-> | [-> | [-> | [-> | [-> | [-> | [-> | [-> | ->
    ]]]]]]]]].
  - rewrite N.add_0_r, H10. unfold Decimal.rev. cbn [Decimal.revapp].
    now rewrite string_of_revapp.
  - replace (n + 1)%N with (N.succ n) by lia.
    rewrite !Hk, H10. unfold Decimal.rev. cbn [Decimal.revapp Decimal.Little.succ].
    now rewrite string_of_revapp.
  - replace (n + 2)%N with (N.succ (N.succ n)) by lia.
    rewrite !Hk, H10. unfold Decimal.rev. cbn [Decimal.revapp Decimal.Little.succ].
    now rewrite string_of_revapp.
  - replace (n + 3)%N with (N.succ (N.succ (N.succ n))) by lia.
    rewrite !Hk, H10. unfold Decimal.rev. cbn [Decimal.revapp Decimal.Little.succ].
    now rewrite string_of_revapp.
  - replace (n + 4)%N with (N.succ (N.succ (N.succ (N.succ n)))) by lia.
    rewrite !Hk, H10. unfold Decimal.rev. cbn [Decimal.revapp Decimal.Little.succ].
    now rewrite string_of_revapp.
  - replace (n + 5)%N
      with (N.succ (N.succ (N.succ (N.succ (N.succ n))))) by lia.
    rewrite !Hk, H10. unfold Decimal.rev. cbn [Decimal.revapp Decimal.Little.succ].
    now rewrite string_of_revapp.
  - replace (n + 6)%N
      with (N.succ (N.succ (N.succ (N.succ (N.succ (N.succ n)))))) by lia.
    rewrite !Hk, H10. unfold Decimal.rev. cbn [Decimal.revapp Decimal.Little.succ].
    now rewrite string_of_revapp.
  - replace (n + 7)%N
      with (N.succ (N.succ (N.succ (N.succ (N.succ (N.succ (N.succ n)))))))
      by lia.
    rewrite !Hk, H10. unfold Decimal.rev. cbn [Decimal.revapp Decimal.Little.succ].
    now rewrite string_of_revapp.
  - replace (n + 8)%N
      with (N.succ (N.succ (N.succ (N.succ (N.succ (N.succ (N.succ
              (N.succ n)))))))) by lia.
    rewrite !Hk, H10. unfold Decimal.rev. cbn [Decimal.revapp Decimal.Little.succ].
    now rewrite string_of_revapp.
  - replace (n + 9)%N
      with (N.succ (N.succ (N.succ (N.succ (N.succ (N.succ (N.succ
              (N.succ (N.succ n))))))))) by lia.
    rewrite !Hk, H10. unfold Decimal.rev. cbn [Decimal.revapp Decimal.Little.succ].
    now rewrite string_of_revapp.
Qed.

Lemma toString_positive (z : Z) :
  (0 < z)%Z ->
  JsString.toString z
  = NilEmpty.string_of_uint
      (Decimal.rev (DecimalPos.Unsigned.to_lu (Z.to_N z))).
Proof.
  intros Hz. destruct z as [ | p | p ]; try lia.
  unfold JsString.toString, NilZero.string_of_int, NilZero.string_of_uint.
  cbn [Z.to_int Z.to_N DecimalPos.Unsigned.to_lu].
  change (Pos.to_uint p) with (Decimal.rev (Pos.to_little_uint p)).
  pose proof (DecimalPos.Unsigned.to_uint_nonnil p) as Hnn.
  change (Pos.to_uint p) with (Decimal.rev (Pos.to_little_uint p)) in Hnn.
  destruct (Decimal.rev (Pos.to_little_uint p)); [ contradiction | reflexivity .. ].
Qed.

Lemma toString_digit (d : Z) :
  (0 <= d < 10)%Z ->
  JsString.toString d = String (digitChar d) EmptyString.
Proof.
  intros Hd.
  assert (Hcases : (d = 0 \/ d = 1 \/ d = 2 \/ d = 3 \/ d = 4 \/ d = 5
                    \/ d = 6 \/ d = 7 \/ d = 8 \/ d = 9)%Z) by lia.
  destruct Hcases as [-> | [-> | [-> | [-> | [-> | [-> | [-> | [-> | [-> | ->
    ]]]]]]]]]; reflexivity.
Qed.

(** The decimal digits of [10 q + r] are those of [q] followed by the
    digit [r]. *)
Lemma toString_tenfold (q r : Z) :
  (0 < q)%Z -> (0 <= r < 10)%Z ->
  JsString.toString (10 * q + r)
  = (JsString.toString q ++ String (digitChar r) EmptyString)%string.
Proof.
  intros Hq Hr.
  rewrite (toString_positive (10 * q + r)) by lia.
  rewrite (toString_positive q) by lia.
  rewrite Z2N.inj_add, Z2N.inj_mul by lia.
  destruct q as [ | p | p ]; try lia.
  change (Z.to_N 10) with 10%N. cbn [Z.to_N].
  rewrite to_lu_tenfold_plus by lia.
  unfold digitChar. now rewrite Z_N_nat.
Qed.

Lemma toString_nonempty (z : Z) :
  (0 <= z)%Z -> (1 <= String.length (JsString.toString z))%nat.
Proof.
  intros Hz.
  destruct (Z_lt_le_dec z 10) as [Hlt | Hge].
  - rewrite toString_digit by lia. cbn. lia.
  - replace z with (10 * (z / 10) + z mod 10)%Z
      by (symmetry; apply Z.div_mod; lia).
    rewrite toString_tenfold
      by (try apply Z.mod_pos_bound; try (apply Z.div_str_pos); lia).
    rewrite string_app_length. cbn. lia.
Qed.

Lemma string_app_inj (a a' b b' : string) :
  String.length a = String.length a' ->
  (a ++ b = a' ++ b')%string -> a = a' /\ b = b'.
Proof.
  revert a'. induction a as [ | x a IH]; intros [ | x' a'] Hlen Heq;
    cbn in *; try discriminate.
  - auto.
  - injection Heq as Hx Hrest. injection Hlen as Hlen.
    destruct (IH a' Hlen Hrest) as [-> ->]. subst. auto.
Qed.

Lemma toString_inj (a b : Z) :
  JsString.toString a = JsString.toString b -> a = b.
Proof.
  unfold JsString.toString. intros Heq.
  apply (f_equal NilZero.int_of_string) in Heq.
  assert (Hnn : forall z, Z.to_int z <> Decimal.Pos Decimal.Nil
                          /\ Z.to_int z <> Decimal.Neg Decimal.Nil).
  { intros [ | p | p ]; cbn; split; try discriminate;
      intros H; injection H as H;
      now apply (DecimalPos.Unsigned.to_uint_nonnil p). }
  rewrite !NilZero.isi in Heq by apply Hnn.
  injection Heq as Heq. now apply DecimalZ.to_int_inj.
Qed.

Lemma digitChar_inj (d d' : Z) :
  (0 <= d < 10)%Z -> (0 <= d' < 10)%Z ->
  digitChar d = digitChar d' -> d = d'.
Proof.
  unfold digitChar. intros Hd Hd' Heq.
  apply (f_equal nat_of_ascii) in Heq.
  rewrite !nat_ascii_embedding in Heq by lia. lia.
Qed.

Lemma twoDigits_inj (n n' : Z) :
  (0 <= n < 100)%Z -> (0 <= n' < 100)%Z ->
  twoDigits n = twoDigits n' -> n = n'.
Proof.
  unfold twoDigits. intros Hn Hn' Heq. injection Heq as H1 H2.
  assert (Hq : (n / 10 = n' / 10)%Z).
  { apply digitChar_inj;
      try (split; [ apply Z.div_pos | apply Z.div_lt_upper_bound ]; lia).
    exact H1. }
  assert (Hr : (n mod 10 = n' mod 10)%Z).
  { apply digitChar_inj; try (apply Z.mod_pos_bound; lia).
    exact H2. }
  rewrite (Z.div_mod n 10), (Z.div_mod n' 10) by lia. lia.
Qed.

Lemma pad2_twoDigits (n : Z) :
  (0 <= n < 100)%Z -> pad2 n = twoDigits n.
Proof.
  intros Hn. unfold pad2, twoDigits, JsString.padStart.
  destruct (Z_lt_le_dec n 10) as [Hlt | Hge].
  - rewrite toString_digit by lia. cbn.
    rewrite Z.div_small, Z.mod_small by lia. reflexivity.
  - replace n with (10 * (n / 10) + n mod 10)%Z at 1 2
      by (symmetry; apply Z.div_mod; lia).
    assert (Hq : (1 <= n / 10 < 10)%Z).
    { split; [ apply Z.div_le_lower_bound | apply Z.div_lt_upper_bound ];
        lia. }
    rewrite toString_tenfold by (try apply Z.mod_pos_bound; lia).
    rewrite toString_digit by lia. reflexivity.
Qed.

Lemma pad2_long (n : Z) :
  (100 <= n)%Z ->
  pad2 n = JsString.toString n /\ (3 <= String.length (pad2 n))%nat.
Proof.
  intros Hn.
  assert (Hlen : (3 <= String.length (JsString.toString n))%nat).
  { replace n with (10 * (n / 10) + n mod 10)%Z
      by (symmetry; apply Z.div_mod; lia).
    assert (Hq : (10 <= n / 10)%Z) by (apply Z.div_le_lower_bound; lia).
    rewrite toString_tenfold by (try apply Z.mod_pos_bound; lia).
    replace (n / 10)%Z with (10 * (n / 10 / 10) + (n / 10) mod 10)%Z
      by (symmetry; apply Z.div_mod; lia).
    assert (Hq' : (1 <= n / 10 / 10)%Z) by (apply Z.div_le_lower_bound; lia).
    rewrite toString_tenfold by (try apply Z.mod_pos_bound; lia).
    rewrite !string_app_length. cbn.
    pose proof (toString_nonempty (n / 10 / 10)). lia. }
  unfold pad2, JsString.padStart in *.
  replace (2 - String.length (JsString.toString n))%nat with 0%nat by lia.
  cbn. auto.
Qed.

Lemma twoDigits_length (n : Z) : String.length (twoDigits n) = 2%nat.
Proof. reflexivity. Qed.

(** X15.  The digits of [formatTime] for non-negative seconds: below
    one hour the result is the five characters MM:SS; from one hour to
    below one hundred hours it is the eight characters HH:MM:SS; from
    one hundred hours up to 2^53 seconds (below which a double holds
    every whole number of seconds exactly) the hours are written in
    full, with three or more digits, before :MM:SS.  Minutes and seconds
    always take two digits. *)
Theorem formatTime_digits (sec : Z) :
  ((0 <= sec < 3600)%Z ->
   formatTime sec
   = (twoDigits (sec / 60) ++ ":" ++ twoDigits (sec mod 60))%string)
  /\ ((3600 <= sec < 360000)%Z ->
      formatTime sec
      = (twoDigits (sec / 3600) ++ ":" ++ twoDigits (sec mod 3600 / 60)
         ++ ":" ++ twoDigits (sec mod 60))%string)
  /\ ((360000 <= sec < 9007199254740992)%Z ->
      formatTime sec
      = (JsString.toString (sec / 3600) ++ ":"
         ++ twoDigits (sec mod 3600 / 60)
         ++ ":" ++ twoDigits (sec mod 60))%string
      /\ (3 <= String.length (JsString.toString (sec / 3600)))%nat).
Proof.
  assert (Hmin : (0 <= sec)%Z -> pad2 (Z.rem sec 3600 / 60)
                                 = twoDigits (sec mod 3600 / 60)).
  { intros H. rewrite Z.rem_mod_nonneg by lia. apply pad2_twoDigits.
    pose proof (Z.mod_pos_bound sec 3600 ltac:(lia)).
    split; [ apply Z.div_pos | apply Z.div_lt_upper_bound ]; lia. }
  assert (Hsec : (0 <= sec)%Z -> pad2 (Z.rem sec 60) = twoDigits (sec mod 60)).
  { intros H. rewrite Z.rem_mod_nonneg by lia. apply pad2_twoDigits.
    pose proof (Z.mod_pos_bound sec 60 ltac:(lia)). lia. }
  split; [ | split ].
  - intros H. unfold formatTime.
    rewrite (Z.div_small sec 3600) by lia. cbn [Z.ltb Z.compare].
    rewrite Hmin, Hsec by lia. now rewrite (Z.mod_small sec 3600) by lia.
  - intros H. unfold formatTime.
    assert (Hh : (1 <= sec / 3600 < 100)%Z).
    { split; [ apply Z.div_le_lower_bound | apply Z.div_lt_upper_bound ];
        lia. }
    destruct (Z.ltb_spec 0 (sec / 3600)) as [_ | Hbad]; [ | lia ].
    rewrite Hmin, Hsec by lia. now rewrite pad2_twoDigits by lia.
  - intros H. unfold formatTime.
    assert (Hh : (100 <= sec / 3600)%Z) by (apply Z.div_le_lower_bound; lia).
    destruct (Z.ltb_spec 0 (sec / 3600)) as [_ | Hbad]; [ | lia ].
    rewrite Hmin, Hsec by lia.
    destruct (pad2_long (sec / 3600) Hh) as [Hp Hl].
    rewrite Hp in Hl. now rewrite Hp.
Qed.

Lemma formatTime_digits_witness :
  formatTime 3599 = "59:59"%string
  /\ formatTime 3600 = "01:00:00"%string
  /\ formatTime 360000 = "100:00:00"%string.
Proof.
  pose proof (formatTime_digits 3599) as (H1 & _).
  pose proof (formatTime_digits 3600) as (_ & H2 & _).
  pose proof (formatTime_digits 360000) as (_ & _ & H3).
  split; [ | split ].
  - rewrite H1 by lia. reflexivity.
  - rewrite H2 by lia. reflexivity.
  - destruct H3 as [H3 _]; [ lia | ]. rewrite H3. reflexivity.
Defined.

Lemma formatTime_nonneg (sec : Z) :
  (0 <= sec)%Z ->
  formatTime sec
  = ((if (sec <? 3600)%Z then EmptyString
      else pad2 (sec / 3600) ++ ":")
     ++ twoDigits (sec mod 3600 / 60) ++ ":" ++ twoDigits (sec mod 60))%string.
Proof.
  intros Hs. unfold formatTime.
  rewrite !Z.rem_mod_nonneg by lia.
  pose proof (Z.mod_pos_bound sec 3600 ltac:(lia)) as Hm.
  pose proof (Z.mod_pos_bound sec 60 ltac:(lia)) as Hs60.
  rewrite (pad2_twoDigits (sec mod 3600 / 60))
    by (split; [ apply Z.div_pos | apply Z.div_lt_upper_bound ]; lia).
  rewrite (pad2_twoDigits (sec mod 60)) by lia.
  destruct (Z.ltb_spec sec 3600) as [Hlt | Hge].
  - rewrite (Z.div_small sec 3600) by lia. reflexivity.
  - assert (1 <= sec / 3600)%Z by (apply Z.div_le_lower_bound; lia).
    destruct (Z.ltb_spec 0 (sec / 3600)) as [_ | Hbad]; [ | lia ].
    now rewrite string_app_assoc.
Qed.

Lemma pad2_length (n : Z) :
  (0 <= n)%Z -> (2 <= String.length (pad2 n))%nat.
Proof.
  intros Hn. destruct (Z_lt_le_dec n 100) as [Hlt | Hge].
  - rewrite pad2_twoDigits by lia. cbn. lia.
  - destruct (pad2_long n Hge) as [_ Hl]. lia.
Qed.

Lemma pad2_inj (n n' : Z) :
  (0 <= n)%Z -> (0 <= n')%Z -> pad2 n = pad2 n' -> n = n'.
Proof.
  intros Hn Hn' Heq.
  destruct (Z_lt_le_dec n 100) as [Hlt | Hge],
           (Z_lt_le_dec n' 100) as [Hlt' | Hge'].
  - rewrite !pad2_twoDigits in Heq by lia. apply twoDigits_inj; auto; lia.
  - exfalso. apply (f_equal String.length) in Heq.
    rewrite (pad2_twoDigits n) in Heq by lia.
    destruct (pad2_long n' Hge') as [_ Hl].
    rewrite twoDigits_length in Heq. lia.
  - exfalso. apply (f_equal String.length) in Heq.
    rewrite (pad2_twoDigits n') in Heq by lia.
    destruct (pad2_long n Hge) as [_ Hl].
    rewrite twoDigits_length in Heq. lia.
  - destruct (pad2_long n Hge) as [Hp _], (pad2_long n' Hge') as [Hp' _].
    rewrite Hp, Hp' in Heq. now apply toString_inj.
Qed.

(** X16.  Different elapsed times are shown differently: on
    non-negative seconds [formatTime] is injective, so the seconds can
    be read back from the displayed time. *)
Theorem formatTime_injective (a b : Z) :
  (0 <= a)%Z -> (0 <= b)%Z -> formatTime a = formatTime b -> a = b.
Proof.
  intros Ha Hb Heq.
  rewrite (formatTime_nonneg a Ha), (formatTime_nonneg b Hb) in Heq.
  set (pa := (if (a <? 3600)%Z then EmptyString
              else pad2 (a / 3600) ++ ":")%string) in *.
  set (pb := (if (b <? 3600)%Z then EmptyString
              else pad2 (b / 3600) ++ ":")%string) in *.
  assert (Hlen : String.length pa = String.length pb).
  { apply (f_equal String.length) in Heq.
    rewrite !string_app_length in Heq. cbn in Heq. lia. }
  destruct (string_app_inj _ _ _ _ Hlen Heq) as [Hp Htail].
  destruct (string_app_inj (twoDigits (a mod 3600 / 60))
              (twoDigits (b mod 3600 / 60)) _ _ eq_refl Htail)
    as [Hmin Hrest].
  injection Hrest as Hsec1 Hsec2.
  pose proof (Z.mod_pos_bound a 3600 ltac:(lia)) as Ham.
  pose proof (Z.mod_pos_bound b 3600 ltac:(lia)) as Hbm.
  pose proof (Z.mod_pos_bound a 60 ltac:(lia)) as Has.
  pose proof (Z.mod_pos_bound b 60 ltac:(lia)) as Hbs.
  assert (Hm : (a mod 3600 / 60 = b mod 3600 / 60)%Z).
  { apply twoDigits_inj; try exact Hmin;
      (split; [ apply Z.div_pos | apply Z.div_lt_upper_bound ]; lia). }
  assert (Hs : (a mod 60 = b mod 60)%Z).
  { apply twoDigits_inj; try lia. unfold twoDigits. now rewrite Hsec1, Hsec2. }
  assert (Hh : (a / 3600 = b / 3600)%Z).
  { unfold pa, pb in Hp, Hlen.
    destruct (Z.ltb_spec a 3600) as [Hal | Hag],
             (Z.ltb_spec b 3600) as [Hbl | Hbg].
    - rewrite !Z.div_small by lia. reflexivity.
    - exfalso. rewrite string_app_length in Hlen. cbn in Hlen. lia.
    - exfalso. rewrite string_app_length in Hlen. cbn in Hlen. lia.
    - assert (0 <= a / 3600)%Z by (apply Z.div_pos; lia).
      assert (0 <= b / 3600)%Z by (apply Z.div_pos; lia).
      rewrite !string_app_length in Hlen. cbn [String.length] in Hlen.
      apply pad2_inj; try assumption.
      apply (string_app_inj _ _ ":"%string ":"%string); [ lia | exact Hp ]. }
  assert (Hdiv : (60 | 3600)%Z) by (now exists 60%Z).
  assert (Hmod : (a mod 3600 = b mod 3600)%Z).
  { rewrite (Z.div_mod (a mod 3600) 60), (Z.div_mod (b mod 3600) 60) by lia.
    rewrite !(Z.mod_mod_divide _ 3600 60) by exact Hdiv. lia. }
  rewrite (Z.div_mod a 3600), (Z.div_mod b 3600) by lia. lia.
Qed.

Lemma formatTime_injective_witness :
  (60 + 5 = 65)%Z /\ formatTime 3599 <> formatTime 215999.
Proof.
  split.
  - apply (formatTime_injective (60 + 5) 65); [ lia | lia | reflexivity ].
  - intros Heq.
    assert (H : 3599%Z = 215999%Z)
      by (apply (formatTime_injective 3599 215999);
          [ lia | lia | exact Heq ]).
    discriminate H.
Defined.

(** X17.  Negative seconds, which a clock set back during a session
    produces, never get an hours segment, and a negative whole number of
    hours is shown as 00:00, like zero: below zero the display is not
    injective. *)
Theorem formatTime_negative_hours (k : Z) :
  (1 <= k)%Z -> formatTime (- (3600 * k)) = "00:00"%string.
Proof.
  intros Hk. unfold formatTime.
  assert (Hh : (- (3600 * k) / 3600 = - k)%Z).
  { replace (- (3600 * k))%Z with (- k * 3600)%Z by lia.
    apply Z.div_mul. lia. }
  rewrite Hh.
  destruct (Z.ltb_spec 0 (- k)) as [Hbad | _]; [ lia | ].
  replace (- (3600 * k))%Z with (- k * 3600)%Z by lia.
  rewrite Z.rem_mul by lia.
  replace (- k * 3600)%Z with (- k * 60 * 60)%Z by lia.
  rewrite Z.rem_mul by lia. reflexivity.
Qed.

Lemma formatTime_negative_hours_witness :
  formatTime (- (3600 * 2)) = "00:00"%string
  /\ formatTime 0 = "00:00"%string.
Proof.
  split; [ apply (formatTime_negative_hours 2); lia | reflexivity ].
Defined.

(** ** Distance formatting *)

Lemma takeS_app (a b : string) :
  JsNumber.takeS (String.length a) (a ++ b) = a.
Proof.
  induction a as [ | x a IH]; cbn.
  - now destruct b.
  - now rewrite IH.
Qed.

Lemma dropS_app (a b : string) :
  JsNumber.dropS (String.length a) (a ++ b) = b.
Proof.
  induction a as [ | x a IH]; cbn.
  - now destruct b.
  - exact IH.
Qed.

Lemma toString_hundredfold (q r : Z) :
  (0 < q)%Z -> (0 <= r < 100)%Z ->
  JsString.toString (100 * q + r)
  = (JsString.toString q ++ twoDigits r)%string.
Proof.
  intros Hq Hr.
  assert (Hr10 : (0 <= r / 10 < 10)%Z).
  { split; [ apply Z.div_pos | apply Z.div_lt_upper_bound ]; lia. }
  pose proof (Z.mod_pos_bound r 10 ltac:(lia)) as Hrm.
  replace (100 * q + r)%Z with (10 * (10 * q + r / 10) + r mod 10)%Z
    by (pose proof (Z.div_mod r 10 ltac:(lia)); lia).
  rewrite toString_tenfold by lia.
  rewrite toString_tenfold by lia.
  unfold twoDigits. now rewrite string_app_assoc.
Qed.

Lemma nearest_eq (f : nat) (x : R) (n : Z) :
  IZR n - / 2 <= x * 10 ^ f < IZR n + / 2 -> JsNumber.nearest f x = n.
Proof.
  intros H. unfold JsNumber.nearest. apply Zfloor_eq. lra.
Qed.

(** X18.  Below 1000 m the distance is shown as the nearest whole number
    of meters followed by " m", a half rounding up; in particular from
    999.5 m up to 1000 m the display reads "1000 m". *)
Theorem formatDistance_meters (m : R) (k : Z) :
  0 <= m < 1000 ->
  IZR k - / 2 <= m < IZR k + / 2 ->
  formatDistance m = (JsString.toString k ++ " m")%string.
Proof.
  intros Hm Hk. unfold formatDistance, JsNumber.toFixed, JsNumber.toFixedAbs.
  destruct (Rge_dec m 1000) as [Hge | _]; [ exfalso; lra | ].
  destruct (Rlt_dec m 0) as [Hneg | _]; [ exfalso; lra | ].
  rewrite (nearest_eq 0 m k); [ reflexivity | ].
  cbn [pow]. lra.
Qed.

Lemma formatDistance_meters_witness :
  formatDistance (9995 / 10) = "1000 m"%string
  /\ formatDistance (1249 / 100) = "12 m"%string
  /\ formatDistance (5 / 10) = "1 m"%string.
Proof.
  split; [ | split ].
  - rewrite (formatDistance_meters (9995 / 10) 1000); [ reflexivity | lra | lra ].
  - rewrite (formatDistance_meters (1249 / 100) 12); [ reflexivity | lra | lra ].
  - rewrite (formatDistance_meters (5 / 10) 1); [ reflexivity | lra | lra ].
Defined.

Lemma toFixed2_digits (q : R) (n : Z) :
  0 <= q ->
  (100 <= n)%Z ->
  IZR n - / 2 <= q * 100 < IZR n + / 2 ->
  JsNumber.toFixed 2 q
  = (JsString.toString (n / 100) ++ "." ++ twoDigits (n mod 100))%string.
Proof.
  intros Hq0 Hn100 Hn. unfold JsNumber.toFixed, JsNumber.toFixedAbs.
  destruct (Rlt_dec q 0) as [Hneg | _]; [ exfalso; lra | ].
  rewrite (nearest_eq 2 q n) by (cbn [pow]; lra).
  assert (Hq : (1 <= n / 100)%Z) by (apply Z.div_le_lower_bound; lia).
  pose proof (Z.mod_pos_bound n 100 ltac:(lia)) as Hr.
  assert (Hsplit : JsString.toString n
                   = (JsString.toString (n / 100)
                      ++ twoDigits (n mod 100))%string).
  { replace n with (100 * (n / 100) + n mod 100)%Z at 1
      by (symmetry; apply Z.div_mod; lia).
    apply toString_hundredfold; lia. }
  pose proof (toString_nonempty (n / 100) ltac:(lia)) as Hne.
  rewrite Hsplit. unfold JsString.padStart.
  set (hs := JsString.toString (n / 100)) in *.
  set (ds := twoDigits (n mod 100)).
  assert (Hlen : String.length (hs ++ ds) = (String.length hs + 2)%nat)
    by (rewrite string_app_length; reflexivity).
  rewrite Hlen.
  replace (2 + 1 - (String.length hs + 2))%nat with 0%nat by lia.
  cbn [JsString.replicate String.append].
  rewrite Hlen.
  replace (String.length hs + 2 - 2)%nat with (String.length hs) by lia.
  now rewrite takeS_app, dropS_app.
Qed.

(** X19.  From 1000 m up to 10^9 m the distance is shown in kilometers
    with exactly two decimals.  With [n] a whole number of hundredths of
    a kilometer from which the distance differs by at most 0.49
    hundredths (so it is not within 0.01 hundredths of a tie), the
    display is the digits of [n / 100], a point, the two digits of
    [n mod 100], and " km"; and the same string results from formatting
    any quotient within 10^-9 of [meters / 1000], as the rounded quotient
    of the double division is. *)
Theorem formatDistance_kilometers (m : R) (n : Z) :
  1000 <= m <= 1000000000 ->
  IZR n - 49 / 100 <= m / 10 <= IZR n + 49 / 100 ->
  formatDistance m
  = (JsString.toString (n / 100) ++ "." ++ twoDigits (n mod 100)
     ++ " km")%string
  /\ forall q : R,
       Rabs (q - m / 1000) <= / 1000000000 ->
       (JsNumber.toFixed 2 q ++ " km")%string
       = (JsString.toString (n / 100) ++ "." ++ twoDigits (n mod 100)
          ++ " km")%string.
Proof.
  intros Hm Hn.
  assert (Hn100 : (100 <= n)%Z).
  { assert (Hr : 99 < IZR n) by lra.
    apply lt_IZR in Hr. lia. }
  assert (Hnear : forall q : R,
             Rabs (q - m / 1000) <= / 1000000000 ->
             (JsNumber.toFixed 2 q ++ " km")%string
             = (JsString.toString (n / 100) ++ "."
                ++ twoDigits (n mod 100) ++ " km")%string).
  { intros q Hq.
    assert (Hq' : - / 1000000000 <= q - m / 1000 <= / 1000000000).
    { unfold Rabs in Hq. destruct (Rcase_abs (q - m / 1000)); lra. }
    rewrite (toFixed2_digits q n); [ | lra | exact Hn100 | lra ].
    now rewrite !string_app_assoc. }
  split; [ | exact Hnear ].
  unfold formatDistance.
  destruct (Rge_dec m 1000) as [_ | Hlt]; [ | exfalso; lra ].
  apply Hnear.
  replace (m / 1000 - m / 1000) with 0 by lra. rewrite Rabs_R0. lra.
Qed.

Lemma formatDistance_kilometers_witness :
  formatDistance 1000 = "1.00 km"%string
  /\ formatDistance 1500 = "1.50 km"%string
  /\ formatDistance 12346 = "12.35 km"%string.
Proof.
  split; [ | split ].
  - rewrite (proj1 (formatDistance_kilometers 1000 100 ltac:(lra) ltac:(lra))).
    reflexivity.
  - rewrite (proj1 (formatDistance_kilometers 1500 150 ltac:(lra) ltac:(lra))).
    reflexivity.
  - rewrite (proj1 (formatDistance_kilometers 12346 1235
                      ltac:(lra) ltac:(lra))).
    reflexivity.
Defined.

(** ** Theme preference *)

Lemma toggleTheme_reload (s : ThemeState) :
  isDarkMode (mountTheme (savedTheme (toggleTheme s)))
  = isDarkMode (toggleTheme s)
  /\ (isDarkMode (toggleTheme s) = true
      <-> dataTheme (toggleTheme s) = Some "dark"%string).
Proof.
  unfold toggleTheme. destruct (isDarkMode s); cbn;
    (split; [ reflexivity | split; intros; try reflexivity; discriminate ]).
Qed.

(** X20.  The theme survives a reload: after any number of toggles,
    starting from any stored preference, a page load that reads the
    stored value comes up with the theme that was showing; and the flag
    is dark exactly when the [data-theme] attribute is "dark". *)
Theorem theme_survives_reload (stored : option string) (n : nat) :
  let s := Nat.iter n toggleTheme (mountTheme stored) in
  isDarkMode (mountTheme (savedTheme s)) = isDarkMode s
  /\ (isDarkMode s = true <-> dataTheme s = Some "dark"%string).
Proof.
  destruct n as [ | n].
  - cbn [Nat.iter nat_rect]. unfold mountTheme. destruct stored as [t | ]; cbn.
    + destruct (String.eqb t "dark") eqn:Ht; cbn.
      * rewrite Ht. cbn. split; [ reflexivity | split; reflexivity ].
      * rewrite Ht. cbn. split; [ reflexivity | split; discriminate ].
    + split; [ reflexivity | split; discriminate ].
  - rewrite Nat.iter_succ. apply toggleTheme_reload.
Qed.
